(** * Voice command service: orchestration, temporary files and sweep

    A shallow embedding of the Flask voice service
    ([voice/app.py] and [voice/services/*.py]) and the proofs of its
    cleanup and validation properties.

    Modelling conventions.
    - Python [str] values are Rocq [string]s; every character stands for a
      code point below 256, and [str.lower], [str.strip] follow Python on
      that range.
    - The file system is a finite map from paths to nodes.
    - Calls into other packages (speech recognition, the language model,
      speech synthesis, audio transcoding, the upload's [save]) are answered
      by an environment record [Env]; the model never inspects how they
      compute their answers.
    - Handlers and service methods run in a state and exception monad over
      the world (file system and the list of stage invocations).
    - Wall-clock times are Python floats. A finite double is held as the
      rational it stands for; where the code subtracts two of them the
      exact difference is rounded to the nearest double, as the
      interpreter does. *)

From Stdlib Require Import Ascii QArith.
From stdpp Require Import gmap strings list fin_maps pretty.

Open Scope string_scope.
Open Scope list_scope.

(** ** Python strings *)

Definition nl : string := String (ascii_of_N 10) "".

Definition char_in_range (lo hi : N) (c : ascii) : bool :=
  ((lo <=? N_of_ascii c) && (N_of_ascii c <=? hi))%N.

(** [str.isupper] of a single code point below 256: A-Z, and the Latin-1
    capitals U+00C0..U+00DE except the multiplication sign U+00D7. *)
Definition char_is_upper (c : ascii) : bool :=
  char_in_range 65 90 c
  || (char_in_range 192 222 c && negb (N_of_ascii c =? 215)%N).

(** [s.lower()] *)
Fixpoint lower (s : string) : string :=
  match s with
  | EmptyString => EmptyString
  | String c s' =>
      String (if char_is_upper c then ascii_of_N (N_of_ascii c + 32) else c)
             (lower s')
  end.

(** [c.isspace()] for a code point below 256. *)
Definition isspace (c : ascii) : bool :=
  char_in_range 9 13 c || char_in_range 28 32 c
  || (N_of_ascii c =? 133)%N || (N_of_ascii c =? 160)%N.

Fixpoint lstrip (s : string) : string :=
  match s with
  | EmptyString => EmptyString
  | String c s' => if isspace c then lstrip s' else s
  end.

Fixpoint rstrip (s : string) : string :=
  match s with
  | EmptyString => EmptyString
  | String c s' =>
      match rstrip s' with
      | EmptyString => if isspace c then EmptyString else String c EmptyString
      | r => String c r
      end
  end.

(** [s.strip()] *)
Definition strip (s : string) : string := rstrip (lstrip s).

(** [c in s] for a one-character [c]. *)
Fixpoint contains_char (c : ascii) (s : string) : bool :=
  match s with
  | EmptyString => false
  | String d s' => Ascii.eqb d c || contains_char c s'
  end.

(** Split at the last occurrence of [sep]: [Some (before, after)], or
    [None] when [sep] does not occur. *)
Fixpoint rsplit1 (sep : ascii) (s : string) : option (string * string) :=
  match s with
  | EmptyString => None
  | String c s' =>
      match rsplit1 sep s' with
      | Some (pre, suf) => Some (String c pre, suf)
      | None => if Ascii.eqb c sep then Some (EmptyString, s') else None
      end
  end.

(** [s.rsplit(sep, 1)] *)
Definition rsplit (sep : ascii) (s : string) : list string :=
  match rsplit1 sep s with
  | Some (pre, suf) => [pre; suf]
  | None => [s]
  end.

(** [sep.join(parts)] *)
Fixpoint str_join (sep : string) (parts : list string) : string :=
  match parts with
  | [] => ""
  | [p] => p
  | p :: rest => p +:+ sep +:+ str_join sep rest
  end.

Definition startswith (pre s : string) : bool := String.prefix pre s.

Fixpoint endswith_char (c : ascii) (s : string) : bool :=
  match s with
  | EmptyString => false
  | String d EmptyString => Ascii.eqb d c
  | String _ s' => endswith_char c s'
  end.

Fixpoint strip_prefix (pre s : string) : option string :=
  match pre, s with
  | EmptyString, _ => Some s
  | String a pre', String b s' =>
      if Ascii.eqb a b then strip_prefix pre' s' else None
  | String _ _, EmptyString => None
  end.

(** ** [os.path] on POSIX *)

Fixpoint all_dots (s : string) : bool :=
  match s with
  | EmptyString => true
  | String c s' => Ascii.eqb c "."%char && all_dots s'
  end.

(** [os.path.basename(p)]: what follows the last slash. *)
Definition basename (p : string) : string :=
  match rsplit1 "/"%char p with
  | Some (_, b) => b
  | None => p
  end.

(** [os.path.splitext(p)]: the extension starts at the last dot, provided
    that dot lies in the last path component and is preceded there by some
    character other than a dot. *)
Definition splitext (p : string) : string * string :=
  match rsplit1 "."%char p with
  | None => (p, "")
  | Some (root, ext) =>
      if contains_char "/"%char ext then (p, "")
      else if all_dots (basename root) then (p, "")
      else (root, String "."%char ext)
  end.

(** [os.path.join(a, b)] *)
Definition path_join (a b : string) : string :=
  if startswith "/" b then b
  else if (String.eqb a "" || endswith_char "/"%char a) then a +:+ b
  else a +:+ "/" +:+ b.

(** ** Exceptions and the handler monad *)

(** Python exceptions, by class. How an exception prints ([str(e)]) is
    decided outside this repository and enters as [exn_str] below. *)
Inductive exn : Type :=
  | IndexError
  | TypeError
  | AttributeError
  | KeyError (key : string)
  | OSError (path : string)
  | ValueError (msg : string)
  | BadRequest
  | UnknownValueError
  | RequestError (detail : string)
  | LibraryError (detail : string).

Inductive Res (A : Type) : Type :=
  | Val (a : A)
  | Raise (e : exn).
Arguments Val {A} a.
Arguments Raise {A} e.

(** A node of the file system: a regular file with its change time
    ([os.path.getctime]), or a directory. *)
Inductive node : Type :=
  | NFile (ctime : Q)
  | NDir.

(** Stage invocations recorded while a request is handled. *)
Inductive Stage : Type :=
  | SpeechToText (path : string)
  | GetResponse (prompt : string)
  | GetContextualResponse (current_text : string)
  | TextToSpeech (text : string).

Record World : Type := mkWorld {
  fs : gmap string node;
  trace : list Stage;
}.

Definition M (A : Type) : Type := World → Res A * World.

#[global] Instance M_ret : MRet M := λ A a w, (Val a, w).

#[global] Instance M_bind : MBind M := λ A B f m w,
  match m w with
  | (Val a, w') => f a w'
  | (Raise e, w') => (Raise e, w')
  end.

#[global] Instance M_throw : MThrow exn M := λ A e w, (Raise e, w).

(** [try: m  except Exception as e: h e] *)
Definition try_except {A} (m : M A) (h : exn → M A) : M A := λ w,
  match m w with
  | (Val a, w') => (Val a, w')
  | (Raise e, w') => h e w'
  end.

Definition lift_res {A} (r : Res A) : M A := λ w, (r, w).

Definition invoke (s : Stage) : M unit := λ w,
  (Val (), {| fs := fs w; trace := trace w ++ [s] |}).

Definition set_fs (f : gmap string node → gmap string node) : M unit := λ w,
  (Val (), {| fs := f (fs w); trace := trace w |}).

Definition os_path_exists (p : string) : M bool := λ w,
  (Val (bool_decide (is_Some (fs w !! p))), w).

Definition os_path_isfile (p : string) : M bool := λ w,
  (Val (match fs w !! p with Some (NFile _) => true | _ => false end), w).

Definition os_path_getctime (p : string) : M Q := λ w,
  match fs w !! p with
  | Some (NFile t) => (Val t, w)
  | _ => (Raise (OSError p), w)
  end.

(** [os.remove(p)]: only an existing regular file can be removed. *)
Definition os_remove (p : string) : M unit := λ w,
  match fs w !! p with
  | Some (NFile _) => (Val (), {| fs := delete p (fs w); trace := trace w |})
  | _ => (Raise (OSError p), w)
  end.

(** ** The environment: answers of the external collaborators *)

(** How a call that writes a file ends: the file is written, or the call
    raises, possibly leaving a partly written file behind. *)
Inductive WriteOutcome : Type :=
  | Written
  | WriteFailed (e : exn) (leaves_file : bool).

Record Env : Type := mkEnv {
  (** [time.time()] *)
  now : Q;
  (** [FileStorage.save(path)] *)
  file_save : string → WriteOutcome;
  (** [AudioSegment.from_mp3 / from_ogg / from_file(path, format)];
      [None] is a successful decode *)
  audio_decode : string → option string → option exn;
  (** [audio.export(path, format="wav")] *)
  audio_export : string → WriteOutcome;
  (** opening [sr.AudioFile(path)], noise calibration and [record] *)
  audio_record : string → option exn;
  (** [recognizer.recognize_google(audio_data)], by the recorded path *)
  recognize_google : string → Res string;
  (** [model.generate_content(prompt)] followed by reading [response.text] *)
  generate_content : string → Res string;
  (** [gTTS(text, lang, slow).save(path)] *)
  gtts_save : string → string → WriteOutcome;
  (** [engine.save_to_file(text, path)] and [runAndWait] *)
  pyttsx3_save : string → string → WriteOutcome;
  (** [genai.GenerativeModel(name)]; [None] is success *)
  model_init : option exn;
  (** the order in which Python iterates a set of strings *)
  set_iteration : gset string → list string;
}.

Definition create_file (t : Q) (p : string) : M unit :=
  set_fs (λ f, <[p := NFile t]> f).

Definition write_file (env : Env) (o : WriteOutcome) (p : string) : M unit :=
  match o with
  | Written => create_file (now env) p
  | WriteFailed e true => create_file (now env) p ;; mthrow e
  | WriteFailed e false => mthrow e
  end.

Definition check (o : option exn) : M unit :=
  match o with
  | None => mret ()
  | Some e => mthrow e
  end.

(** An optional string when it is truthy in Python: neither [None] nor
    the empty string. *)
Definition nonempty (o : option string) : option string :=
  match o with
  | Some s => if String.eqb s "" then None else Some s
  | None => None
  end.

(** [for x in l: body x] *)
Fixpoint for_each {A} (l : list A) (body : A → M unit) : M unit :=
  match l with
  | [] => mret ()
  | x :: l' => body x ;; for_each l' body
  end.

(** ** [services/voice_recognition.py] *)

(** The decoder chosen for an extension; [None] is pydub's auto-detection. *)
Definition decode_format (file_ext : string) : option string :=
  if String.eqb file_ext ".mp3" then Some "mp3"
  else if String.eqb file_ext ".ogg" then Some "ogg"
  else if String.eqb file_ext ".m4a" then Some "m4a"
  else if String.eqb file_ext ".flac" then Some "flac"
  else if String.eqb file_ext ".webm" then Some "webm"
  else None.

Definition _convert_to_wav (env : Env) (audio_file_path : string) : M string :=
  try_except
    (let file_ext := lower (splitext audio_file_path).2 in
     if String.eqb file_ext ".wav" then mret audio_file_path
     else
       let wav_path := (splitext audio_file_path).1 +:+ "_converted.wav" in
       check (audio_decode env audio_file_path (decode_format file_ext)) ;;
       write_file env (audio_export env wav_path) wav_path ;;
       mret wav_path)
    (λ _, mret audio_file_path).

Definition speech_to_text (env : Env) (audio_file_path : string)
  : M (option string) :=
  invoke (SpeechToText audio_file_path) ;;
  try_except
    (wav_path ← _convert_to_wav env audio_file_path;
     check (audio_record env wav_path) ;;
     try_except
       (text ← lift_res (recognize_google env wav_path);
        stale ← (if bool_decide (wav_path ≠ audio_file_path)
                 then os_path_exists wav_path else mret false);
        (if stale : bool then os_remove wav_path else mret ()) ;;
        mret (Some text))
       (λ e, match e with
             | UnknownValueError => mret None
             | RequestError _ => mret None
             | _ => mthrow e
             end))
    (λ _, mret None).

(** ** [services/gemini_service.py] *)

Record GeminiService : Type := mkGemini { api_key : string }.

(** [GeminiService.__init__], given the process environment variables. *)
Definition GeminiService_init (env : Env) (environ : gmap string string)
  : Res GeminiService :=
  match nonempty (environ !! "GOOGLE_API_KEY") with
  | None => Raise (ValueError "GOOGLE_API_KEY environment variable is required")
  | Some key =>
      match model_init env with
      | Some e => Raise e
      | None => Val {| api_key := key |}
      end
  end.

Definition get_response (env : Env) (prompt : string) (context : option string)
  : M (option string) :=
  invoke (GetResponse prompt) ;;
  try_except
    (let full_prompt :=
       match nonempty context with
       | Some c =>
           "Context: " +:+ c +:+ nl +:+ nl +:+ "User: " +:+ prompt +:+ nl +:+ nl
           +:+ "Please provide a helpful and concise response:"
       | None =>
           "User: " +:+ prompt +:+ nl +:+ nl
           +:+ "Please provide a helpful and concise response:"
       end in
     text ← lift_res (generate_content env full_prompt);
     if String.eqb text "" then mret None else mret (Some (strip text)))
    (λ _, mret None).

(** [l[-n:]] *)
Definition last_n {A} (n : nat) (l : list A) : list A :=
  drop (length l - n) l.

(** One pass of the history loop: a turn holding both keys appends its
    user line and its assistant line. *)
Definition add_turn (context_parts : list string) (turn : gmap string string)
  : list string :=
  match turn !! "user", turn !! "assistant" with
  | Some u, Some a => context_parts ++ ["User: " +:+ u; "Assistant: " +:+ a]
  | _, _ => context_parts
  end.

Definition context_parts (conversation_history : option (list (gmap string string)))
  : list string :=
  match conversation_history with
  | Some ((_ :: _) as h) => foldl add_turn [] (last_n 5 h)
  | _ => []
  end.

Definition indent : string := "                ".

Definition contextual_prompt (current_text : string)
    (conversation_history : option (list (gmap string string))) : string :=
  match context_parts conversation_history with
  | [] =>
      nl +:+ indent +:+ "User input: " +:+ current_text +:+ nl
      +:+ indent +:+ nl
      +:+ indent +:+ "Please provide a helpful and conversational response." +:+ nl
      +:+ indent
  | parts =>
      let context_str := str_join nl parts in
      nl +:+ indent +:+ "Previous conversation:" +:+ nl
      +:+ indent +:+ context_str +:+ nl
      +:+ indent +:+ nl
      +:+ indent +:+ "Current user input: " +:+ current_text +:+ nl
      +:+ indent +:+ nl
      +:+ indent +:+ "Please provide a helpful response that takes into account the conversation context." +:+ nl
      +:+ indent +:+ "Keep it conversational as it will be converted to speech." +:+ nl
      +:+ indent
  end.

Definition get_contextual_response (env : Env) (current_text : string)
    (conversation_history : option (list (gmap string string)))
  : M (option string) :=
  invoke (GetContextualResponse current_text) ;;
  try_except
    (let full_prompt := contextual_prompt current_text conversation_history in
     text ← lift_res (generate_content env full_prompt);
     if String.eqb text "" then mret None else mret (Some (strip text)))
    (λ _, mret None).

(** ** [services/text_to_speech.py] *)

(** The directory [__init__] stores in [self.output_dir]. *)
Definition AUDIO_DIR : string := path_join "static" "audio".

Record TextToSpeechService : Type := mkTTS {
  use_gtts : bool;
  (** whether the pyttsx3 engine was initialised *)
  engine : bool;
  output_dir : string;
}.

(** [int(t)]: truncation towards zero. *)
Definition int_of_time (t : Q) : Z := Z.quot (Qnum t) (Z.pos (Qden t)).

Definition _gtts_convert (env : Env) (text output_path : string)
  : M (option string) :=
  try_except
    (write_file env (gtts_save env text output_path) output_path ;;
     mret (Some output_path))
    (λ _, mret None).

Definition _pyttsx3_convert (env : Env) (self : TextToSpeechService)
    (text output_path : string) : M (option string) :=
  try_except
    (if negb (engine self) then mret None
     else
       let wav_path := (splitext output_path).1 +:+ ".wav" in
       write_file env (pyttsx3_save env text wav_path) wav_path ;;
       mret (Some wav_path))
    (λ _, mret None).

Definition text_to_speech (env : Env) (self : TextToSpeechService)
    (text : string) (filename : option string) : M (option string) :=
  invoke (TextToSpeech text) ;;
  try_except
    (if String.eqb text "" || String.eqb (strip text) "" then mret None
     else
       let filename :=
         match nonempty filename with
         | Some f => f
         | None => "response_" +:+ pretty (int_of_time (now env)) +:+ ".mp3"
         end in
       let output_path := path_join (output_dir self) filename in
       if use_gtts self then _gtts_convert env text output_path
       else _pyttsx3_convert env self text output_path)
    (λ _, mret None).

(** The name under which [p] is listed in directory [d] (written without a
    trailing slash): [p] is [d/name] and [name] is a single component. *)
Definition child_name (d p : string) : option string :=
  match strip_prefix (d +:+ "/") p with
  | Some name =>
      if String.eqb name "" || contains_char "/" name then None else Some name
  | None => None
  end.

(** [os.listdir(d)], in no particular order. *)
Definition os_listdir (d : string) : M (list string) := λ w,
  match fs w !! d with
  | Some NDir => (Val (omap (child_name d) (map_to_list (fs w)).*1), w)
  | _ => (Raise (OSError d), w)
  end.

(** ** Double-precision arithmetic *)

(** A Python [float] other than a NaN: a finite double, given by the
    rational it stands for, or an infinity. *)
Inductive float : Type :=
  | Finite (q : Q)
  | Inf (negative : bool).

(** The power of two [2^e] of an integer [e] of either sign is the
    fraction [pow2_num e / pow2_den e]. *)
Definition pow2_num (e : Z) : Z := 2 ^ Z.max 0 e.
Definition pow2_den (e : Z) : Z := 2 ^ Z.max 0 (- e).

(** [floor (log2 (a / d))] for positive [a] and [d]. *)
Definition floor_log2 (a d : Z) : Z :=
  let l := (Z.log2 a - Z.log2 d)%Z in
  if (d * pow2_num l <=? a * pow2_den l)%Z then l else (l - 1)%Z.

(** The integer nearest to [num / den], the even one of two that are
    equally near ([0 <= num], [0 < den]). *)
Definition round_half_even (num den : Z) : Z :=
  let q := (num / den)%Z in
  match (2 * (num mod den) ?= den)%Z with
  | Lt => q
  | Eq => if Z.even q then q else (q + 1)%Z
  | Gt => (q + 1)%Z
  end.

(** The double nearest to the rational [x] (IEEE 754 binary64, round to
    nearest, ties to even): a significand [m] of at most 53 bits at the
    exponent [e] of the binade of [x], no lower than the subnormal
    exponent [-1074]; a result of magnitude [2^1024] or more is an
    infinity. *)
Definition float_of_Q (x : Q) : float :=
  let d := Z.pos (Qden x) in
  let a := Z.abs (Qnum x) in
  if (a =? 0)%Z then Finite 0 else
  let e := Z.max (floor_log2 a d - 52) (-1074) in
  let m := round_half_even (a * pow2_den e) (d * pow2_num e) in
  if (2 ^ 1024 * pow2_den e <=? m * pow2_num e)%Z then Inf (Qnum x <? 0)%Z
  else Finite (Z.sgn (Qnum x) * m * pow2_num e # Z.to_pos (pow2_den e)).

(** [a - b] on two finite floats: the exact difference, rounded. *)
Definition float_sub (a b : Q) : float := float_of_Q (a - b).

(** [a > b] on rationals *)
Definition Qgt_bool (a b : Q) : bool := negb (Qle_bool a b).

(** [x > k] for a float [x] and an [int] [k]; Python compares the two
    exactly. *)
Definition float_gt_int (x : float) (k : Z) : bool :=
  match x with
  | Finite q => Qgt_bool q (inject_Z k)
  | Inf negative => negb negative
  end.

Definition cleanup_old_files (env : Env) (self : TextToSpeechService)
    (max_age_hours : Z) : M unit :=
  try_except
    (let current_time := now env in
     let max_age_seconds := (max_age_hours * 3600)%Z in
     names ← os_listdir (output_dir self);
     for_each names (λ filename,
       let file_path := path_join (output_dir self) filename in
       is_file ← os_path_isfile file_path;
       if is_file : bool then
         ctime ← os_path_getctime file_path;
         let file_age := float_sub current_time ctime in
         if float_gt_int file_age max_age_seconds then os_remove file_path
         else mret ()
       else mret ()))
    (λ _, mret ()).

(** ** [app.py] *)

(** The value [request.get_json()] returns. A dict is the list of its
    items; numbers are integers. *)
#[warnings="-register-all"]
Inductive json : Type :=
  | JNull
  | JBool (b : bool)
  | JNum (n : Z)
  | JStr (s : string)
  | JArr (items : list json)
  | JObj (fields : list (string * json)).

Definition json_truthy (data : json) : bool :=
  match data with
  | JNull => false
  | JBool b => b
  | JNum n => negb (n =? 0)%Z
  | JStr s => negb (String.eqb s "")
  | JArr items => match items with [] => false | _ => true end
  | JObj fields => match fields with [] => false | _ => true end
  end.

Definition json_is_str (key : string) (j : json) : bool :=
  match j with
  | JStr s => String.eqb s key
  | _ => false
  end.

Fixpoint assoc (key : string) (fields : list (string * json)) : option json :=
  match fields with
  | [] => None
  | (k, v) :: rest => if String.eqb k key then Some v else assoc key rest
  end.

(** [key in data] *)
Definition json_contains (key : string) (data : json) : Res bool :=
  match data with
  | JObj fields => Val (bool_decide (is_Some (assoc key fields)))
  | JArr items => Val (existsb (json_is_str key) items)
  | JStr s => Val (bool_decide (is_Some (String.index 0 key s)))
  | _ => Raise TypeError
  end.

(** [data[key]] for a string [key] *)
Definition json_getitem (key : string) (data : json) : Res json :=
  match data with
  | JObj fields =>
      match assoc key fields with
      | Some v => Val v
      | None => Raise (KeyError key)
      end
  | _ => Raise TypeError
  end.

(** [v.strip()] *)
Definition json_strip (v : json) : Res string :=
  match v with
  | JStr s => Val (strip s)
  | _ => Raise AttributeError
  end.

Record Response : Type := mkResponse {
  status : Z;
  body : list (string * string);
}.

(** [jsonify({'error': msg}), code] *)
Definition error_response (msg : string) (code : Z) : Response :=
  {| status := code; body := [("error", msg)] |}.

Definition UPLOAD_FOLDER : string := "uploads".

Definition ALLOWED_EXTENSIONS : gset string :=
  {[ "wav"; "mp3"; "ogg"; "m4a"; "flac"; "webm" ]}.

(** [TextToSpeechService()] as [app.py] builds it: gTTS, no pyttsx3 engine. *)
Definition tts_service : TextToSpeechService :=
  {| use_gtts := true; engine := false; output_dir := AUDIO_DIR |}.

Definition allowed_file (filename : string) : Res bool :=
  if contains_char "." filename then
    match rsplit "." filename !! 1%nat with
    | Some ext => Val (bool_decide (lower ext ∈ ALLOWED_EXTENSIONS))
    | None => Raise IndexError
    end
  else Val false.

Definition invalid_file_type (env : Env) : Response :=
  error_response
    ("Invalid file type. Allowed types: "
     +:+ str_join ", " (set_iteration env ALLOWED_EXTENSIONS))
    400.

Section App.

(** [werkzeug.utils.secure_filename] and the printing of exceptions are
    not part of this repository. *)
Variable secure_filename : string → string.
Variable exn_str : exn → string.

(** [POST /voice-command]; [files] maps each uploaded form field to the
    file name it carries. *)
Definition voice_command (env : Env) (files : gmap string string) : M Response :=
  try_except
    (match files !! "audio" with
     | None => mret (error_response "No audio file provided" 400)
     | Some file_name =>
         if String.eqb file_name "" then
           mret (error_response "No file selected" 400)
         else
           ok ← lift_res (allowed_file file_name);
           if ok : bool then
             let filename := secure_filename file_name in
             let filepath := path_join UPLOAD_FOLDER filename in
             write_file env (file_save env filepath) filepath ;;
             recognized_text ← speech_to_text env filepath;
             match nonempty recognized_text with
             | None =>
                 os_remove filepath ;;
                 mret (error_response "Could not recognize speech from audio" 400)
             | Some recognized_text =>
                 gemini_response ← get_response env recognized_text None;
                 match nonempty gemini_response with
                 | None =>
                     os_remove filepath ;;
                     mret (error_response "Could not get response from Gemini" 500)
                 | Some gemini_response =>
                     audio_response_path ←
                       text_to_speech env tts_service gemini_response None;
                     match nonempty audio_response_path with
                     | None =>
                         os_remove filepath ;;
                         mret (error_response "Could not generate audio response" 500)
                     | Some audio_response_path =>
                         os_remove filepath ;;
                         mret {| status := 200;
                                 body :=
                                   [("status", "success");
                                    ("recognized_text", recognized_text);
                                    ("response_text", gemini_response);
                                    ("audio_response_url",
                                     "/download-audio/"
                                     +:+ basename audio_response_path)] |}
                     end
                 end
             end
           else mret (invalid_file_type env)
     end)
    (λ e, mret (error_response ("Internal server error: " +:+ exn_str e) 500)).

(** [POST /text-command]; [get_json] is what [request.get_json()] does. *)
Definition text_command (env : Env) (get_json : Res json) : M Response :=
  try_except
    (data ← lift_res get_json;
     has_text ← (if json_truthy data then lift_res (json_contains "text" data)
                 else mret false);
     if negb has_text then mret (error_response "No text provided" 400)
     else
       value ← lift_res (json_getitem "text" data);
       input_text ← lift_res (json_strip value);
       if String.eqb input_text "" then
         mret (error_response "Empty text provided" 400)
       else
         gemini_response ← get_response env input_text None;
         match nonempty gemini_response with
         | None => mret (error_response "Could not get response from Gemini" 500)
         | Some gemini_response =>
             audio_response_path ←
               text_to_speech env tts_service gemini_response None;
             match nonempty audio_response_path with
             | None =>
                 mret (error_response "Could not generate audio response" 500)
             | Some audio_response_path =>
                 mret {| status := 200;
                         body :=
                           [("status", "success");
                            ("input_text", input_text);
                            ("response_text", gemini_response);
                            ("audio_response_url",
                             "/download-audio/"
                             +:+ basename audio_response_path)] |}
             end
         end)
    (λ e, mret (error_response ("Internal server error: " +:+ exn_str e) 500)).

End App.

(** ** Notions used in the statements *)

(** The extension rule in the words of the specification: the file name
    contains a dot, and what follows its last dot, lowercased, is in the
    allow-list. *)
Definition has_allowed_extension (filename : string) : Prop :=
  ∃ stem ext : string,
    filename = stem +:+ String "." ext
    ∧ contains_char "." ext = false
    ∧ lower ext ∈ ALLOWED_EXTENSIONS.

(** [m], started in [w], ends with a value satisfying [Qv] or with an
    exception satisfying [Qe]. *)
Definition spec {A} (m : M A) (w : World)
    (Qv : A → World → Prop) (Qe : exn → World → Prop) : Prop :=
  match m w with
  | (Val a, w') => Qv a w'
  | (Raise e, w') => Qe e w'
  end.

Definition no_exn : exn → World → Prop := λ _ _, False.

(** [m], started in [w], returns normally with a value and a world that
    satisfy [Q]. *)
Definition returns {A} (m : M A) (w : World) (Q : A → World → Prop) : Prop :=
  ∃ a w', m w = (Val a, w') ∧ Q a w'.

(** The stages invoked while [m] runs from [w]. *)
Definition invoked_by {A} (m : M A) (w : World) : list Stage :=
  drop (length (trace w)) (trace (m w).2).

Definition is_file (f : gmap string node) (p : string) : Prop :=
  ∃ t, f !! p = Some (NFile t).

Definition success_response (recognized_text gemini_response audio_path : string)
  : Response :=
  {| status := 200;
     body := [("status", "success");
              ("recognized_text", recognized_text);
              ("response_text", gemini_response);
              ("audio_response_url", "/download-audio/" +:+ basename audio_path)] |}.

Definition internal_error (exn_str : exn → string) (e : exn) : Response :=
  error_response ("Internal server error: " +:+ exn_str e) 500.

(** The ways a voice request that saved its upload can end, each with the
    stages invoked after recognition. *)
Inductive voice_exit : Response → list Stage → Prop :=
  | exit_recognition :
      voice_exit (error_response "Could not recognize speech from audio" 400) []
  | exit_generation t :
      voice_exit (error_response "Could not get response from Gemini" 500)
                 [GetResponse t]
  | exit_synthesis t g :
      voice_exit (error_response "Could not generate audio response" 500)
                 [GetResponse t; TextToSpeech g]
  | exit_success t g a :
      voice_exit (success_response t g a) [GetResponse t; TextToSpeech g].

(** Every way [voice_command] can end, by the request and the environment. *)
Definition voice_post (secure_filename : string → string)
    (exn_str : exn → string) (env : Env) (files : gmap string string)
    (w : World) (resp : Response) (w' : World) : Prop :=
  match files !! "audio" with
  | None => resp = error_response "No audio file provided" 400 ∧ w' = w
  | Some file_name =>
      if String.eqb file_name "" then
        resp = error_response "No file selected" 400 ∧ w' = w
      else
        match allowed_file file_name with
        | Val true =>
            let filepath := path_join UPLOAD_FOLDER (secure_filename file_name) in
            match file_save env filepath with
            | Written =>
                fs w' !! filepath = None
                ∧ ∃ stages,
                    trace w' = trace w ++ SpeechToText filepath :: stages
                    ∧ voice_exit resp stages
            | WriteFailed e _ =>
                resp = internal_error exn_str e ∧ trace w' = trace w
            end
        | _ => resp = invalid_file_type env ∧ w' = w
        end
  end.

(** A directory path to which [os.path.join] adds a slash. *)
Definition plain_dir (d : string) : Prop :=
  String.eqb d "" || endswith_char "/" d = false.

(** A regular file at [p] whose age, as the sweep computes it, exceeds
    [max_age_seconds]. *)
Definition expired (env : Env) (max_age_seconds : Z) (f : gmap string node)
    (p : string) : bool :=
  match f !! p with
  | Some (NFile t) => float_gt_int (float_sub (now env) t) max_age_seconds
  | _ => false
  end.

(** The body of the loop of [cleanup_old_files]. *)
Definition sweep_body (env : Env) (d : string) (max_age_seconds : Z)
    (filename : string) : M unit :=
  let file_path := path_join d filename in
  is_file ← os_path_isfile file_path;
  if is_file : bool then
    ctime ← os_path_getctime file_path;
    let file_age := float_sub (now env) ctime in
    if float_gt_int file_age max_age_seconds then os_remove file_path
    else mret ()
  else mret ().

(** A file of directory [d] that is strictly older than [max_age_hours]:
    the exact difference of the clock and its change time exceeds the
    threshold. *)
Definition older_than (env : Env) (d : string) (max_age_hours : Z)
    (f : gmap string node) (p : string) : Prop :=
  ∃ name t, child_name d p = Some name ∧ f !! p = Some (NFile t)
            ∧ (inject_Z (max_age_hours * 3600) < now env - t)%Q.

(** A file of directory [d] whose computed age, the double-precision
    difference of the clock and its change time, exceeds
    [max_age_hours]. *)
Definition stale (env : Env) (d : string) (max_age_hours : Z)
    (f : gmap string node) (p : string) : Prop :=
  ∃ name t, child_name d p = Some name ∧ f !! p = Some (NFile t)
            ∧ float_gt_int (float_sub (now env) t) (max_age_hours * 3600)
              = true.

(** The lines one turn of the history contributes to the prompt. *)
Definition turn_lines (turn : gmap string string) : list string :=
  match turn !! "user", turn !! "assistant" with
  | Some u, Some a => ["User: " +:+ u; "Assistant: " +:+ a]
  | _, _ => []
  end.

Definition history_header : string :=
  nl +:+ indent +:+ "Previous conversation:" +:+ nl +:+ indent.

Definition history_footer (current_text : string) : string :=
  nl +:+ indent +:+ nl
  +:+ indent +:+ "Current user input: " +:+ current_text +:+ nl
  +:+ indent +:+ nl
  +:+ indent +:+ "Please provide a helpful response that takes into account the conversation context." +:+ nl
  +:+ indent +:+ "Keep it conversational as it will be converted to speech." +:+ nl
  +:+ indent.

(** ** Sample environments and worlds *)

(** An environment in which every file operation succeeds and the three
    services answer as given. *)
Definition sample_env (recognized generated : Res string) (t : Q) : Env :=
  {| now := t;
     file_save := λ _, Written;
     audio_decode := λ _ _, None;
     audio_export := λ _, Written;
     audio_record := λ _, None;
     recognize_google := λ _, recognized;
     generate_content := λ _, generated;
     gtts_save := λ _ _, Written;
     pyttsx3_save := λ _ _, Written;
     model_init := None;
     set_iteration := elements |}.

Definition empty_world : World := {| fs := {[ AUDIO_DIR := NDir ]}; trace := [] |}.

(** A rendering of exceptions that tells the two raised on a malformed
    body apart. *)
Definition sample_exn_str (e : exn) : string :=
  match e with
  | TypeError => "TypeError"
  | AttributeError => "AttributeError"
  | _ => "error"
  end.

(** The clock at the double [86400.1] and a file whose change time is the
    double [0.1]: the file is older than 24 hours by some [5.8e-12]
    seconds, and the difference of the two doubles evaluates to
    [86400.0]. *)
Definition boundary_now : Q := 2968684830969037 # 34359738368.
Definition boundary_ctime : Q := 3602879701896397 # 36028797018963968.

Definition boundary_world : World :=
  {| fs := {[ AUDIO_DIR := NDir;
              "static/audio/old.mp3" := NFile boundary_ctime ]};
     trace := [] |}.

(** The output directory holding files aged one, 23 and 25 hours at time
    [100000]. *)
Definition aged_world : World :=
  {| fs := {[ AUDIO_DIR := NDir;
              "static/audio/h1.mp3" := NFile (96400 # 1);
              "static/audio/h23.mp3" := NFile (17200 # 1);
              "static/audio/h25.mp3" := NFile (10000 # 1) ]};
     trace := [] |}.

(** ** More of [app.py]: downloads *)

(** What [download_audio] answers: the file sent as an attachment, or a
    JSON error. *)
Inductive Download : Type :=
  | SendFile (path : string)
  | DownloadError (resp : Response).

(** [send_file(path, as_attachment=True)]: only a regular file can be
    sent. The server is taken to run from the application directory, so
    that [send_file] and [os.path.exists] resolve a relative path alike. *)
Definition send_file (path : string) : M Download := λ w,
  match fs w !! path with
  | Some (NFile _) => (Val (SendFile path), w)
  | _ => (Raise (OSError path), w)
  end.

(** [GET /download-audio/<filename>] *)
Definition download_audio (filename : string) : M Download :=
  try_except
    (let filepath := path_join (path_join "static" "audio") filename in
     found ← os_path_exists filepath;
     if found : bool then send_file filepath
     else mret (DownloadError (error_response "Audio file not found" 404)))
    (λ _, mret (DownloadError
                  (error_response "Could not download audio file" 500))).

(** ** More of [services/text_to_speech.py]: the pyttsx3 engine *)

Record Voice : Type := mkVoice { voice_id : string; voice_name : string }.

(** The properties of the pyttsx3 engine that [_setup_pyttsx3] reads and
    sets. *)
Record Engine : Type := mkEngine {
  rate : Z;
  volume : Q;
  voice : option string;
  voices : list Voice;
}.

(** [sub in s] *)
Definition str_contains (sub s : string) : bool :=
  bool_decide (is_Some (String.index 0 sub s)).

Definition prefers (v : Voice) : bool :=
  str_contains "female" (lower (voice_name v))
  || str_contains "zira" (lower (voice_name v)).

(** The [for voice in voices: ... break] loop: the id it sets, or [None]
    when it runs to its end. *)
Fixpoint pick_voice (voices : list Voice) : option string :=
  match voices with
  | [] => None
  | v :: rest => if prefers v then Some (voice_id v) else pick_voice rest
  end.

(** [_setup_pyttsx3]; [None] is an engine that was never initialised. *)
Definition _setup_pyttsx3 (engine : option Engine) : option Engine :=
  match engine with
  | None => None
  | Some engine =>
      let engine :=
        {| rate := rate engine - 50; volume := volume engine;
           voice := voice engine; voices := voices engine |} in
      let engine :=
        {| rate := rate engine; volume := 9 # 10;
           voice := voice engine; voices := voices engine |} in
      match voices engine with
      | [] => Some engine
      | first :: _ =>
          Some {| rate := rate engine; volume := volume engine;
                  voice := match pick_voice (voices engine) with
                           | Some id => Some id
                           | None => Some (voice_id first)
                           end;
                  voices := voices engine |}
      end
  end.

(** ** Further notions used in the statements *)

(** The path at which [_convert_to_wav] writes the converted audio. *)
Definition converted_path (audio_file_path : string) : string :=
  (splitext audio_file_path).1 +:+ "_converted.wav".

(** The file name [text_to_speech] makes up at time [t]. *)
Definition default_audio_name (t : Q) : string :=
  "response_" +:+ pretty (int_of_time t) +:+ ".mp3".

(** A response status the handlers use. *)
Definition handler_status (code : Z) : Prop :=
  code = 200%Z ∨ code = 400%Z ∨ code = 500%Z.

(** The stage lists a voice request can leave behind: the pipeline order,
    cut at any point. *)
Inductive pipeline_prefix : list Stage → Prop :=
  | prefix_none : pipeline_prefix []
  | prefix_recognition p : pipeline_prefix [SpeechToText p]
  | prefix_generation p t : pipeline_prefix [SpeechToText p; GetResponse t]
  | prefix_synthesis p t g :
      pipeline_prefix [SpeechToText p; GetResponse t; TextToSpeech g].

(** The body of a successful text command. *)
Definition text_success (input_text gemini_response audio_path : string)
  : Response :=
  {| status := 200;
     body := [("status", "success");
              ("input_text", input_text);
              ("response_text", gemini_response);
              ("audio_response_url", "/download-audio/" +:+ basename audio_path)] |}.

(** The prompt [get_response] sends for [prompt] without context. *)
Definition plain_prompt (prompt : string) : string :=
  "User: " +:+ prompt +:+ nl +:+ nl
  +:+ "Please provide a helpful and concise response:".

(** The world after one more stage invocation. *)
Definition add_stage (w : World) (s : Stage) : World :=
  {| fs := fs w; trace := trace w ++ [s] |}.

(** The world after a file is written at [p] at time [t]. *)
Definition with_file (t : Q) (p : string) (w : World) : World :=
  {| fs := <[p := NFile t]> (fs w); trace := trace w |}.

(** What [get_response] returns for [prompt] without context: it depends
    on the environment only. *)
Definition generated (env : Env) (prompt : string) : option string :=
  match generate_content env (plain_prompt prompt) with
  | Val text => if String.eqb text "" then None else Some (strip text)
  | Raise _ => None
  end.

(** Where the application's synthesizer writes at the time of [env]. *)
Definition audio_path (env : Env) : string :=
  path_join AUDIO_DIR (default_audio_name (now env)).

(** A text without any character other than whitespace. *)
Definition blank (text : string) : bool :=
  String.eqb text "" || String.eqb (strip text) "".

(** What every run of [text_command] guarantees. *)
Definition text_post (env : Env) (w : World) (resp : Response) (w' : World)
  : Prop :=
  handler_status (status resp)
  ∧ (∀ q, is_file (fs w) q → is_file (fs w') q)
  ∧ (status resp = 200%Z →
     ∃ t g, resp = text_success t g (audio_path env)
            ∧ is_file (fs w') (audio_path env)
            ∧ trace w' = trace w ++ [GetResponse t; TextToSpeech g]).

(** What a voice request that saved its upload at [filepath] guarantees
    beyond [voice_post]. *)
Definition voice_saved_post (env : Env) (filepath : string) (w : World)
    (resp : Response) (w' : World) : Prop :=
  (∀ q, q ≠ filepath → q ≠ converted_path filepath →
        is_file (fs w) q → is_file (fs w') q)
  ∧ (status resp = 200%Z →
     ∃ t g, resp = success_response t g (audio_path env)
            ∧ trace w' = trace w ++ [SpeechToText filepath; GetResponse t;
                                     TextToSpeech g]
            ∧ (audio_path env ≠ filepath → is_file (fs w') (audio_path env))).

(** * Strings and paths *)

Lemma contains_char_app c s t :
  contains_char c (s +:+ t) = contains_char c s || contains_char c t.
Proof.
  induction s as [|d s IH]; simpl; [done|].
  rewrite IH. by rewrite orb_assoc.
Qed.

Lemma rsplit1_None c s : rsplit1 c s = None ↔ contains_char c s = false.
Proof.
  induction s as [|d s IH]; simpl; [done|].
  destruct (rsplit1 c s) as [[pre suf]|].
  - split; [done|]. intros [_ H]%orb_false_iff. apply IH in H. done.
  - destruct (Ascii.eqb d c); simpl; [done|]. split; [|done]. intros _. by apply IH.
Qed.

Lemma rsplit1_Some c s pre suf :
  rsplit1 c s = Some (pre, suf) ↔
  s = pre +:+ String c suf ∧ contains_char c suf = false.
Proof.
  revert pre. induction s as [|d s IH]; intros pre; simpl.
  - split; [done|]. intros [H _]. by destruct pre.
  - destruct (rsplit1 c s) as [[pre' suf']|] eqn:E.
    + split.
      * intros [= <- <-]. destruct (IH pre') as [[-> Hs] _]; [done|]. done.
      * intros [H Hs]. destruct pre as [|a pre]; simpl in H.
        -- injection H as -> ->. apply rsplit1_None in Hs. congruence.
        -- injection H as -> H. f_equal. 
           destruct (IH pre) as [_ IH2]. specialize (IH2 (conj H Hs)). congruence.
    + apply rsplit1_None in E. destruct (Ascii.eqb_spec d c) as [->|Hne].
      * split.
        -- intros [= <- <-]. done.
        -- intros [H Hs]. destruct pre as [|a pre]; simpl in H.
           ++ by injection H as ->.
           ++ injection H as -> ->. rewrite contains_char_app in E. simpl in E.
              rewrite Ascii.eqb_refl in E. by rewrite orb_true_r in E.
      * split; [done|]. intros [H Hs]. destruct pre as [|a pre]; simpl in H.
        -- by injection H as -> ->.
        -- injection H as -> ->. rewrite contains_char_app in E. simpl in E.
           rewrite Ascii.eqb_refl in E. by rewrite orb_true_r in E.
Qed.

(** * The extension check *)

Lemma allowed_file_cases filename :
  (allowed_file filename = Val true ∧ has_allowed_extension filename)
  ∨ (allowed_file filename = Val false ∧ ¬ has_allowed_extension filename).
Proof.
  unfold allowed_file, rsplit.
  destruct (contains_char "." filename) eqn:Hdot.
  - destruct (rsplit1 "." filename) as [[pre suf]|] eqn:E.
    + simpl. apply rsplit1_Some in E as [-> Hs].
      destruct (decide (lower suf ∈ ALLOWED_EXTENSIONS)) as [Hin|Hin].
      * left. rewrite bool_decide_eq_true_2 by done. split; [done|].
        by exists pre, suf.
      * right. rewrite bool_decide_eq_false_2 by done. split; [done|].
        intros (stem & ext & Heq & Hext & Hin').
        assert (rsplit1 "." (pre +:+ String "." suf) = Some (stem, ext)) as H1
          by (by apply rsplit1_Some).
        assert (rsplit1 "." (pre +:+ String "." suf) = Some (pre, suf)) as H2
          by (by apply rsplit1_Some).
        congruence.
    + apply rsplit1_None in E. congruence.
  - right. split; [done|].
    intros (stem & ext & -> & _ & _).
    rewrite contains_char_app in Hdot. simpl in Hdot.
    by rewrite orb_true_r in Hdot.
Qed.

(** * Rules of the handler monad *)

Section Rules.
Context {A B : Type}.
Implicit Types (w : World) (Qe : exn → World → Prop).

Lemma spec_ret (a : A) w (Qv : A → World → Prop) Qe :
  Qv a w → spec (mret a) w Qv Qe.
Proof. done. Qed.

Lemma spec_throw e w (Qv : A → World → Prop) Qe :
  Qe e w → spec (mthrow e) w Qv Qe.
Proof. done. Qed.

Lemma spec_bind (m : M A) (f : A → M B) w (Qv : B → World → Prop) Qe :
  spec m w (λ a w1, spec (f a) w1 Qv Qe) Qe → spec (m ≫= f) w Qv Qe.
Proof.
  unfold spec, mbind, M_bind. by destruct (m w) as [[a|e] w1].
Qed.

Lemma spec_try (m : M A) (h : exn → M A) w (Qv : A → World → Prop) Qe :
  spec m w Qv (λ e w1, spec (h e) w1 Qv Qe) → spec (try_except m h) w Qv Qe.
Proof.
  unfold spec, try_except. by destruct (m w) as [[a|e] w1].
Qed.

Lemma spec_mono (m : M A) w (Pv Qv : A → World → Prop) Pe Qe :
  spec m w Pv Pe →
  (∀ a w1, Pv a w1 → Qv a w1) → (∀ e w1, Pe e w1 → Qe e w1) →
  spec m w Qv Qe.
Proof.
  unfold spec. destruct (m w) as [[a|e] w1]; eauto.
Qed.

Lemma spec_lift_res (r : Res A) w (Qv : A → World → Prop) Qe :
  match r with Val a => Qv a w | Raise e => Qe e w end →
  spec (lift_res r) w Qv Qe.
Proof. unfold spec, lift_res. by destruct r. Qed.

Lemma spec_returns (m : M A) w (Qv : A → World → Prop) :
  spec m w Qv no_exn ↔ returns m w Qv.
Proof.
  unfold spec, returns. destruct (m w) as [[a|e] w1]; split.
  - intros H. by exists a, w1.
  - by intros (a' & w' & [= <- <-] & H).
  - done.
  - by intros (a' & w' & [=] & _).
Qed.

End Rules.

Lemma spec_invoke s w (Qv : unit → World → Prop) Qe :
  Qv () {| fs := fs w; trace := trace w ++ [s] |} → spec (invoke s) w Qv Qe.
Proof. done. Qed.

Lemma spec_check o w (Qv : unit → World → Prop) Qe :
  match o with None => Qv () w | Some e => Qe e w end → spec (check o) w Qv Qe.
Proof. by destruct o. Qed.

Lemma spec_write_file env o p w (Qv : unit → World → Prop) Qe :
  let w1 := {| fs := <[p := NFile (now env)]> (fs w); trace := trace w |} in
  match o with
  | Written => Qv () w1
  | WriteFailed e true => Qe e w1
  | WriteFailed e false => Qe e w
  end →
  spec (write_file env o p) w Qv Qe.
Proof. by destruct o as [|e []]. Qed.

Lemma spec_os_path_exists p w (Qv : bool → World → Prop) Qe :
  Qv (bool_decide (is_Some (fs w !! p))) w → spec (os_path_exists p) w Qv Qe.
Proof. done. Qed.

Lemma spec_os_remove p w (Qv : unit → World → Prop) Qe :
  match fs w !! p with
  | Some (NFile _) => Qv () {| fs := delete p (fs w); trace := trace w |}
  | _ => Qe (OSError p) w
  end →
  spec (os_remove p) w Qv Qe.
Proof. unfold spec, os_remove. by destruct (fs w !! p) as [[]|]. Qed.

Ltac wp_step :=
  lazymatch goal with
  | |- spec (mbind _ _) _ _ _ => apply spec_bind
  | |- spec (try_except _ _) _ _ _ => apply spec_try
  | |- spec (mret _) _ _ _ => apply spec_ret
  | |- spec (mthrow _) _ _ _ => apply spec_throw
  | |- spec (invoke _) _ _ _ => apply spec_invoke
  | |- spec (check _) _ _ _ => apply spec_check
  | |- spec (write_file _ _ _) _ _ _ => apply spec_write_file
  | |- spec (lift_res _) _ _ _ => apply spec_lift_res
  | |- spec (os_path_exists _) _ _ _ => apply spec_os_path_exists
  | |- spec (os_remove _) _ _ _ => apply spec_os_remove
  end.

Ltac wp := repeat (wp_step; cbn beta iota zeta).

(** * The stages *)

Lemma is_file_insert f p q t : is_file f q → is_file (<[p := NFile t]> f) q.
Proof.
  intros [t' H]. destruct (decide (p = q)) as [->|Hne].
  - exists t. apply lookup_insert_eq.
  - exists t'. by rewrite lookup_insert_ne.
Qed.

Lemma is_file_delete f p q : p ≠ q → is_file f q → is_file (delete p f) q.
Proof. intros Hne [t H]. exists t. by rewrite lookup_delete_ne. Qed.

(** What [_convert_to_wav] does to the world, and which path it returns. *)
Lemma convert_to_wav_spec env p w :
  spec (_convert_to_wav env p) w
    (λ r w', trace w' = trace w
             ∧ (fs w' = fs w ∨ ∃ q, fs w' = <[q := NFile (now env)]> (fs w)))
    no_exn.
Proof.
  unfold _convert_to_wav. wp.
  destruct (String.eqb _ ".wav"); wp; [by auto|].
  destruct (audio_decode _ _ _); wp; [by auto|].
  destruct (audio_export _ _) as [|e []]; wp; eauto.
Qed.

Lemma speech_to_text_spec env p w :
  spec (speech_to_text env p) w
    (λ r w', trace w' = trace w ++ [SpeechToText p]
             ∧ (is_file (fs w) p → is_file (fs w') p))
    no_exn.
Proof.
  unfold speech_to_text. wp.
  eapply spec_mono; [apply convert_to_wav_spec| |done].
  intros wav w1 [Htr Hfs]; simpl in *. wp.
  assert (is_file (fs w) p → is_file (fs w1) p) as Hkeep.
  { destruct Hfs as [->|[q ->]]; [done|apply is_file_insert]. }
  destruct (audio_record env wav); wp; [done|].
  destruct (recognize_google env wav) as [text|e]; wp.
  - case_bool_decide as Hne; wp.
    + case_bool_decide as Hex; wp.
      * destruct (fs w1 !! wav) as [[t|]|] eqn:E; wp; simpl; [|done..].
        split; [done|]. intros H. apply is_file_delete; auto.
      * done.
    + done.
  - destruct e; wp; done.
Qed.

Lemma get_response_spec env prompt context w :
  spec (get_response env prompt context) w
    (λ r w', fs w' = fs w ∧ trace w' = trace w ++ [GetResponse prompt])
    no_exn.
Proof.
  unfold get_response. wp.
  destruct (generate_content env _) as [text|e]; wp; [|done].
  destruct (String.eqb text ""); wp; done.
Qed.

Lemma text_to_speech_spec env self text filename w :
  spec (text_to_speech env self text filename) w
    (λ r w', trace w' = trace w ++ [TextToSpeech text]
             ∧ ∀ q, is_file (fs w) q → is_file (fs w') q)
    no_exn.
Proof.
  unfold text_to_speech, _gtts_convert, _pyttsx3_convert. wp.
  destruct (_ || _); wp; [done|].
  destruct (use_gtts self); wp.
  - destruct (gtts_save env _ _) as [|e []]; wp; simpl;
      (split; [done|]); intros q; try done; apply is_file_insert.
  - destruct (negb (engine self)); wp; [done|].
    destruct (pyttsx3_save env _ _) as [|e []]; wp; simpl;
      (split; [done|]); intros q; try done; apply is_file_insert.
Qed.

Lemma voice_command_spec secure_filename exn_str env files w :
  spec (voice_command secure_filename exn_str env files) w
    (voice_post secure_filename exn_str env files w) no_exn.
Proof.
  unfold voice_command, voice_post. wp.
  destruct (files !! "audio") as [file_name|]; wp; [|done].
  destruct (String.eqb file_name ""); wp; [done|].
  destruct (allowed_file_cases file_name) as [[-> _]|[-> _]]; wp; [|done].
  set (filepath := path_join UPLOAD_FOLDER (secure_filename file_name)).
  destruct (file_save env filepath) as [|e []]; wp; [|done..].
  eapply spec_mono; [apply speech_to_text_spec| |done].
  intros r1 w1 [Htr1 Hfile1]; simpl in *.
  assert (is_file (fs w1) filepath) as Hf1.
  { apply Hfile1. eexists. apply lookup_insert_eq. }
  destruct (nonempty r1) as [recognized|]; wp.
  - eapply spec_mono; [apply get_response_spec| |done].
    intros r2 w2 [Hfs2 Htr2]; simpl in *.
    destruct (nonempty r2) as [gemini|]; wp.
    + eapply spec_mono; [apply text_to_speech_spec| |done].
      intros r3 w3 [Htr3 Hfile3]; simpl in *.
      assert (is_file (fs w3) filepath) as [t3 Hf3].
      { apply Hfile3. by rewrite Hfs2. }
      destruct (nonempty r3) as [audio|]; wp; rewrite Hf3; wp; simpl.
      * split; [apply lookup_delete_eq|]. eexists. split; [|apply exit_success].
        rewrite Htr3, Htr2, Htr1. by rewrite <- !app_assoc.
      * split; [apply lookup_delete_eq|]. eexists. split; [|apply exit_synthesis].
        rewrite Htr3, Htr2, Htr1. by rewrite <- !app_assoc.
    + destruct Hf1 as [t1 Hf1]. rewrite Hfs2, Hf1. wp. simpl.
      split; [apply lookup_delete_eq|]. eexists. split; [|apply exit_generation].
      rewrite Htr2, Htr1. by rewrite <- !app_assoc.
  - destruct Hf1 as [t1 Hf1]. rewrite Hf1. wp. simpl.
    split; [apply lookup_delete_eq|]. eexists. split; [|apply exit_recognition].
    by rewrite Htr1.
Qed.

(** * The sweep *)

Lemma string_app_assoc (s t u : string) : (s +:+ t) +:+ u = s +:+ (t +:+ u).
Proof.
  induction s as [|c s IH]; [done|].
  change (String c ((s +:+ t) +:+ u) = String c (s +:+ (t +:+ u))).
  by rewrite IH.
Qed.

Lemma strip_prefix_Some pre s r :
  strip_prefix pre s = Some r ↔ s = pre +:+ r.
Proof.
  revert s. induction pre as [|a pre IH]; intros s; simpl.
  - change ("" +:+ r) with r. split; congruence.
  - change (String a pre +:+ r) with (String a (pre +:+ r)).
    destruct s as [|b s]; [done|].
    destruct (Ascii.eqb_spec a b) as [->|Hne].
    + rewrite IH. split; congruence.
    + split; [done|]. congruence.
Qed.

Lemma startswith_slash name :
  contains_char "/" name = false → startswith "/" name = false.
Proof.
  destruct name as [|c name]; [done|]. cbn [contains_char].
  intros [Hc _]%orb_false_iff. unfold startswith. cbn [String.prefix].
  destruct (Ascii.ascii_dec "/" c) as [<-|Hne]; [|done].
  by rewrite Ascii.eqb_refl in Hc.
Qed.

Lemma child_name_join d p name :
  plain_dir d → child_name d p = Some name → path_join d name = p.
Proof.
  unfold child_name, path_join, plain_dir. intros Hd H.
  destruct (strip_prefix (d +:+ "/") p) as [r|] eqn:E; [|done].
  destruct (String.eqb r "" || contains_char "/" r) eqn:Hr; [done|].
  injection H as ->. apply orb_false_iff in Hr as [_ Hr].
  rewrite startswith_slash, Hd by done.
  apply strip_prefix_Some in E. rewrite E. symmetry. apply string_app_assoc.
Qed.

Lemma elem_of_listdir d (f : gmap string node) name :
  name ∈ omap (child_name d) (map_to_list f).*1 ↔
  ∃ p, is_Some (f !! p) ∧ child_name d p = Some name.
Proof.
  rewrite list_elem_of_omap. split.
  - intros (p & Hp & Hn). exists p. split; [|done].
    apply list_elem_of_fmap in Hp as ([p' x] & -> & Hpx).
    apply elem_of_map_to_list in Hpx. by exists x.
  - intros (p & [x Hx] & Hn). exists p. split; [|done].
    apply list_elem_of_fmap. exists (p, x). split; [done|].
    by apply elem_of_map_to_list.
Qed.

Lemma Qgt_bool_lt a b : Qgt_bool a b = true ↔ (b < a)%Q.
Proof.
  unfold Qgt_bool. rewrite negb_true_iff, <- not_true_iff_false, Qle_bool_iff.
  split; [apply Qnot_le_lt|apply Qlt_not_le].
Qed.

(** ** Rounding to a double *)

Lemma pow2_num_pos e : (0 < pow2_num e)%Z.
Proof. unfold pow2_num. apply Z.pow_pos_nonneg; lia. Qed.

Lemma pow2_den_pos e : (0 < pow2_den e)%Z.
Proof. unfold pow2_den. apply Z.pow_pos_nonneg; lia. Qed.

Lemma pow2_num_nonneg e : (0 <= e)%Z → pow2_num e = (2 ^ e)%Z.
Proof. intros. unfold pow2_num. by rewrite Z.max_r. Qed.

Lemma pow2_num_nonpos e : (e <= 0)%Z → pow2_num e = 1%Z.
Proof. intros. unfold pow2_num. by rewrite Z.max_l. Qed.

Lemma pow2_den_nonneg e : (0 <= e)%Z → pow2_den e = 1%Z.
Proof. intros. unfold pow2_den. by rewrite Z.max_l by lia. Qed.

Lemma pow2_den_nonpos e : (e <= 0)%Z → pow2_den e = (2 ^ (- e))%Z.
Proof. intros. unfold pow2_den. by rewrite Z.max_r by lia. Qed.

(** [2^(e+k) = 2^e * 2^k] on the fractions [pow2_num / pow2_den]. *)
Lemma pow2_shift e k :
  (0 <= k)%Z →
  (pow2_num (e + k) * pow2_den e = 2 ^ k * pow2_num e * pow2_den (e + k))%Z.
Proof.
  intros Hk. destruct (Z.le_gt_cases 0 e) as [He|He].
  - rewrite !pow2_num_nonneg, !pow2_den_nonneg by lia.
    rewrite Z.pow_add_r by lia. lia.
  - rewrite (pow2_num_nonpos e), (pow2_den_nonpos e) by lia.
    destruct (Z.le_gt_cases 0 (e + k)) as [Hek|Hek].
    + rewrite pow2_num_nonneg, pow2_den_nonneg by lia.
      rewrite <- Z.pow_add_r by lia. replace (e + k + - e)%Z with k by lia. lia.
    + rewrite pow2_num_nonpos, pow2_den_nonpos by lia.
      rewrite Z.mul_1_l, Z.mul_1_r, <- Z.pow_add_r by lia. f_equal. lia.
Qed.

(** [floor_log2 a d] is the binade of [a / d]. *)
Lemma floor_log2_spec a d :
  (0 < a)%Z → (0 < d)%Z →
  let l := floor_log2 a d in
  (d * pow2_num l <= a * pow2_den l)%Z
  ∧ (a * pow2_den (l + 1) < d * pow2_num (l + 1))%Z.
Proof.
  intros Ha Hd. cbn zeta. unfold floor_log2.
  destruct (Z.log2_spec a Ha) as [Ha1 Ha2].
  destruct (Z.log2_spec d Hd) as [Hd1 Hd2].
  pose proof (Z.log2_nonneg a) as Hla. pose proof (Z.log2_nonneg d) as Hld.
  set (la := Z.log2 a) in *. set (ld := Z.log2 d) in *.
  rewrite Z.pow_succ_r in Ha2, Hd2 by done.
  assert (0 < 2 ^ la)%Z as Hpa by (apply Z.pow_pos_nonneg; lia).
  assert (0 < 2 ^ ld)%Z as Hpd by (apply Z.pow_pos_nonneg; lia).
  (* the two estimates that hold whatever the test says *)
  assert (a * pow2_den (la - ld + 1) < d * pow2_num (la - ld + 1))%Z as Hup.
  { destruct (Z.le_gt_cases 0 (la - ld + 1)) as [H|H].
    - rewrite pow2_num_nonneg, pow2_den_nonneg by lia.
      replace (la - ld + 1)%Z with (Z.succ (la - ld + 1 - 1)) by lia.
      assert (2 ^ (la - ld + 1) * 2 ^ ld = 2 * 2 ^ la)%Z as E.
      { rewrite <- Z.pow_add_r by lia. replace (la - ld + 1 + ld)%Z with (Z.succ la) by lia.
        by rewrite Z.pow_succ_r. }
      replace (Z.succ (la - ld + 1 - 1)) with (la - ld + 1)%Z by lia.
      assert (0 < 2 ^ (la - ld + 1))%Z by (apply Z.pow_pos_nonneg; lia).
      nia.
    - rewrite pow2_num_nonpos, pow2_den_nonpos by lia.
      assert (2 * 2 ^ la * 2 ^ (- (la - ld + 1)) = 2 ^ ld)%Z as E.
      { rewrite <- Z.pow_succ_r, <- Z.pow_add_r by lia. f_equal. lia. }
      assert (0 < 2 ^ (- (la - ld + 1)))%Z by (apply Z.pow_pos_nonneg; lia).
      nia. }
  assert (d * pow2_num (la - ld - 1) <= a * pow2_den (la - ld - 1))%Z as Hlow.
  { destruct (Z.le_gt_cases 0 (la - ld - 1)) as [H|H].
    - rewrite pow2_num_nonneg, pow2_den_nonneg by lia.
      assert (2 * 2 ^ ld * 2 ^ (la - ld - 1) = 2 ^ la)%Z as E.
      { rewrite <- Z.pow_succ_r, <- Z.pow_add_r by lia. f_equal. lia. }
      assert (0 < 2 ^ (la - ld - 1))%Z by (apply Z.pow_pos_nonneg; lia).
      nia.
    - rewrite pow2_num_nonpos, pow2_den_nonpos by lia.
      assert (2 ^ la * 2 ^ (- (la - ld - 1)) = 2 * 2 ^ ld)%Z as E.
      { rewrite <- Z.pow_succ_r, <- Z.pow_add_r by lia. f_equal. lia. }
      assert (0 < 2 ^ (- (la - ld - 1)))%Z by (apply Z.pow_pos_nonneg; lia).
      nia. }
  destruct (Z.leb_spec (d * pow2_num (la - ld)) (a * pow2_den (la - ld))) as [H|H].
  - done.
  - split; [done|]. by replace (la - ld - 1 + 1)%Z with (la - ld)%Z by lia.
Qed.

Lemma round_half_even_le num den k :
  (0 < den)%Z → (num <= k * den)%Z → (round_half_even num den <= k)%Z.
Proof.
  intros Hden Hk. unfold round_half_even.
  pose proof (Z.div_mod num den ltac:(lia)) as Hdm.
  pose proof (Z.mod_pos_bound num den Hden) as Hm.
  set (q := (num / den)%Z) in *. set (r := (num mod den)%Z) in *.
  assert (q <= k)%Z as Hq by nia.
  destruct (Z.compare_spec (2 * r) den) as [E|E|E]; [destruct (Z.even q)|..];
    try done; nia.
Qed.

Lemma round_half_even_ge num den k :
  (0 < den)%Z → (k * den <= num)%Z → (k <= round_half_even num den)%Z.
Proof.
  intros Hden Hk. unfold round_half_even.
  pose proof (Z.div_mod num den ltac:(lia)) as Hdm.
  pose proof (Z.mod_pos_bound num den Hden) as Hm.
  set (q := (num / den)%Z) in *. set (r := (num mod den)%Z) in *.
  assert (k <= q)%Z as Hq by nia.
  destruct (Z.compare_spec (2 * r) den) as [E|E|E]; [destruct (Z.even q)|..];
    lia.
Qed.

Lemma Qgt_bool_int_false n d k :
  (0 < d)%Z → (n <= k * d)%Z → Qgt_bool (n # Z.to_pos d) (inject_Z k) = false.
Proof.
  intros Hd Hle. apply not_true_iff_false. rewrite Qgt_bool_lt.
  unfold Qlt. cbn [Qnum Qden inject_Z]. rewrite Z2Pos.id by done. lia.
Qed.

(** A difference that is at most an integer of magnitude up to [2^53]
    (a double) does not round above it. *)
Lemma float_of_Q_le_int x k :
  (x <= inject_Z k)%Q → (Z.abs k <= 2 ^ 53)%Z →
  float_gt_int (float_of_Q x) k = false.
Proof.
  destruct x as [n d]. unfold Qle, float_of_Q. cbn [Qnum Qden inject_Z].
  intros Hle Hk.
  assert (2 ^ 53 = 2 ^ 52 * 2)%Z as E53 by done.
  assert (2 ^ 53 < 2 ^ 1024)%Z as Hbig by (apply Z.pow_lt_mono_r; lia).
  assert (0 < 2 ^ 52)%Z as H52 by done.
  remember (2 ^ 53)%Z as p53 eqn:Ep53.
  remember (2 ^ 52)%Z as p52 eqn:Ep52.
  remember (2 ^ 1024)%Z as p1024.
  set (D := Z.pos d) in *. assert (0 < D)%Z as HD by done.
  destruct (Z.eqb_spec (Z.abs n) 0) as [Hn|Hn].
  { cbn [float_gt_int]. change 0%Q with (0 # Z.to_pos 1).
    apply Qgt_bool_int_false; lia. }
  set (a := Z.abs n) in *. assert (0 < a)%Z as Ha by lia.
  destruct (floor_log2_spec a D Ha HD) as [Hlow Hup].
  set (l := floor_log2 a D) in *.
  set (e := Z.max (l - 52) (-1074)).
  pose proof (pow2_num_pos e) as Hpn. pose proof (pow2_den_pos e) as Hpd.
  set (m := round_half_even (a * pow2_den e) (D * pow2_num e)).
  assert (0 <= m)%Z as Hm by (apply round_half_even_ge; nia).
  destruct (Z.lt_total n 0) as [Hneg|[->|Hpos]]; [| lia |].
  - (* a negative difference *)
    replace (n <? 0)%Z with true by (symmetry; by apply Z.ltb_lt).
    destruct (_ <=? _)%Z; [done|]. cbn [float_gt_int].
    apply Qgt_bool_int_false; [done|].
    rewrite (Z.sgn_neg n) by done.
    destruct (Z.le_gt_cases 0 k) as [Hk0|Hk0]; [nia|].
    assert (- k * D <= a)%Z as Hak by lia.
    assert (0 <= l)%Z as Hl.
    { destruct (Z.le_gt_cases 0 l) as [|Hl]; [done|]. exfalso.
      rewrite pow2_num_nonpos, pow2_den_nonpos in Hup by lia.
      assert (0 < 2 ^ (- (l + 1)))%Z by (apply Z.pow_pos_nonneg; lia). nia. }
    assert (e = l - 52)%Z as He by lia.
    assert (- k * pow2_den e <= m * pow2_num e)%Z; [|lia].
    destruct (Z.le_gt_cases e 0) as [He0|He0].
    + pose proof (pow2_num_nonpos e He0) as Epn.
      assert (- k * pow2_den e <= m)%Z; [|lia].
      apply round_half_even_ge; nia.
    + pose proof (pow2_den_nonneg e ltac:(lia)) as Epd.
      pose proof (pow2_num_nonneg e ltac:(lia)) as Epn.
      rewrite pow2_num_nonneg, pow2_den_nonneg in Hlow by lia.
      assert (2 ^ l = p52 * 2 ^ e)%Z as El.
      { subst p52. rewrite <- Z.pow_add_r by lia. f_equal. lia. }
      assert (p52 <= m)%Z by (apply round_half_even_ge; nia).
      assert (2 ^ 1 <= 2 ^ e)%Z as He2 by (apply Z.pow_le_mono_r; lia).
      change (2 ^ 1)%Z with 2%Z in He2. nia.
  - (* a positive difference *)
    assert (a = n) as Han by lia.
    assert (1 <= k)%Z as Hk1 by nia.
    assert (m * pow2_num e <= k * pow2_den e)%Z as Hval.
    { destruct (Z.le_gt_cases e 0) as [He0|He0].
      - pose proof (pow2_num_nonpos e He0) as Epn.
        assert (m <= k * pow2_den e)%Z; [|lia].
        apply round_half_even_le; nia.
      - assert (e = l - 52)%Z as He by lia.
        pose proof (pow2_den_nonneg e ltac:(lia)) as Epd.
        pose proof (pow2_num_nonneg e ltac:(lia)) as Epn.
        rewrite pow2_num_nonneg, pow2_den_nonneg in Hlow by lia.
        assert (2 ^ l <= k)%Z as Hlk by nia.
        assert (l = 53)%Z as El.
        { destruct (Z.le_gt_cases l 53) as [|Hl]; [lia|]. exfalso.
          assert (2 ^ 53 < 2 ^ l)%Z by (apply Z.pow_lt_mono_r; lia). lia. }
        assert (2 ^ e = 2)%Z as He1 by (by replace e with 1%Z by lia).
        rewrite El, <- Ep53 in Hlk.
        assert (m <= p52)%Z by (apply round_half_even_le; nia).
        nia. }
    destruct (Z.leb_spec (p1024 * pow2_den e) (m * pow2_num e)) as [Hov|_];
      [exfalso; nia|].
    cbn [float_gt_int]. apply Qgt_bool_int_false; [done|].
    rewrite (Z.sgn_pos n) by done. lia.
Qed.

(** ** The sweep *)

Lemma sweep_body_run env d age name w :
  sweep_body env d age name w =
  (Val (), if expired env age (fs w) (path_join d name)
           then {| fs := delete (path_join d name) (fs w); trace := trace w |}
           else w).
Proof.
  unfold sweep_body, expired, os_path_isfile, os_path_getctime, os_remove,
    mbind, M_bind, mret, M_ret.
  destruct (fs w !! path_join d name) as [[t|]|] eqn:E; rewrite ?E; simpl;
    try done.
  destruct (float_gt_int _ _); [by rewrite E|done].
Qed.

Lemma sweep_loop env d age names w :
  spec (for_each names (sweep_body env d age)) w
    (λ _ w', trace w' = trace w
       ∧ ∀ p, fs w' !! p =
              if decide (p ∈ path_join d <$> names ∧ expired env age (fs w) p = true)
              then None else fs w !! p)
    no_exn.
Proof.
  revert w. induction names as [|name names IH]; intros w; cbn [for_each].
  - wp. split; [done|]. intros p. case_decide as H; [|done].
    destruct H as [H _]. by apply elem_of_nil in H.
  - wp. unfold spec at 1. rewrite sweep_body_run.
    eapply spec_mono; [apply IH| |done]. clear IH.
    intros [] w' [Htr Hfs]. rewrite fmap_cons.
    set (q := path_join d name) in *.
    destruct (expired env age (fs w) q) eqn:Hq; cbn [fs trace] in *.
    + split; [done|]. intros p. rewrite Hfs. clear Hfs.
      destruct (decide (p = q)) as [->|Hne].
      * rewrite lookup_delete_eq.
        rewrite (decide_True (P := q ∈ q :: _ ∧ _)); [by case_decide|].
        split; [left|done].
      * assert (expired env age (delete q (fs w)) p = expired env age (fs w) p)
          as ->.
        { unfold expired. by rewrite lookup_delete_ne. }
        rewrite lookup_delete_ne by done.
        apply option_eq. intros x. repeat case_decide; try done.
        -- exfalso. destruct H. apply H0. split; [by right|done].
        -- exfalso. destruct H0 as [[?|?]%elem_of_cons ?]; [done|]. by apply H.
    + split; [done|]. intros p. rewrite Hfs.
      repeat case_decide; try done.
      * exfalso. destruct H. apply H0. split; [by right|done].
      * exfalso. destruct H0 as [[->|?]%elem_of_cons ?]; [congruence|]. by apply H.
Qed.

Lemma expired_stale env d hours f p :
  plain_dir d →
  (p ∈ path_join d <$> omap (child_name d) (map_to_list f).*1
   ∧ expired env (hours * 3600) f p = true)
  ↔ stale env d hours f p.
Proof.
  intros Hd. unfold stale, expired. split.
  - intros [Hin Hexp]. apply list_elem_of_fmap in Hin as (name & -> & Hin).
    apply elem_of_listdir in Hin as (p & _ & Hp).
    rewrite (child_name_join _ _ _ Hd Hp) in *.
    destruct (f !! p) as [[t|]|]; try done.
    by exists name, t.
  - intros (name & t & Hname & Hp & Hlt). rewrite Hp. split; [|done].
    apply list_elem_of_fmap. exists name.
    split; [by rewrite (child_name_join _ _ _ Hd Hname)|].
    apply elem_of_listdir. exists p. by rewrite Hp.
Qed.

(** For a threshold that is a double, a file the sweep finds stale is
    strictly older than the threshold. *)
Lemma stale_older_than env d hours f p :
  (Z.abs (hours * 3600) <= 2 ^ 53)%Z →
  stale env d hours f p → older_than env d hours f p.
Proof.
  intros Hk (name & t & Hname & Hp & Hgt). exists name, t.
  split; [done|]. split; [done|]. apply Qnot_le_lt. intros Hle.
  pose proof (float_of_Q_le_int _ _ Hle Hk) as Hno.
  unfold float_sub in Hgt. congruence.
Qed.

Lemma cleanup_old_files_run env self max_age_hours w :
  output_dir self = AUDIO_DIR →
  fs w !! AUDIO_DIR = Some NDir →
  ∃ w', cleanup_old_files env self max_age_hours w = (Val (), w')
        ∧ trace w' = trace w
        ∧ ∀ p, (stale env AUDIO_DIR max_age_hours (fs w) p
                ∧ fs w' !! p = None)
               ∨ (¬ stale env AUDIO_DIR max_age_hours (fs w) p
                  ∧ fs w' !! p = fs w !! p).
Proof.
  intros Hself Hdir.
  set (names := omap (child_name AUDIO_DIR) (map_to_list (fs w)).*1).
  set (age := (max_age_hours * 3600)%Z).
  assert (spec (cleanup_old_files env self max_age_hours) w
            (λ _ w', trace w' = trace w
               ∧ ∀ p, fs w' !! p =
                      if decide (p ∈ path_join AUDIO_DIR <$> names
                                 ∧ expired env age (fs w) p = true)
                      then None else fs w !! p) no_exn) as H.
  { unfold cleanup_old_files. rewrite Hself. wp. unfold spec at 1, os_listdir.
    rewrite Hdir.
    eapply spec_mono; [exact (sweep_loop env AUDIO_DIR age names w)|done..]. }
  apply spec_returns in H as ([] & w' & Hrun & Htr & Hfs).
  exists w'. split; [done|]. split; [done|]. intros p. rewrite Hfs.
  case_decide as Hp.
  - left. split; [|done]. by apply expired_stale.
  - right. split; [|done]. intros Hold. apply Hp.
    by apply expired_stale.
Qed.

Lemma allowed_file_true_iff filename :
  allowed_file filename = Val true ↔ has_allowed_extension filename.
Proof.
  destruct (allowed_file_cases filename) as [[-> H]|[-> H]]; split; try done.
Qed.

Lemma voice_command_returns secure_filename exn_str env files w :
  returns (voice_command secure_filename exn_str env files) w
    (voice_post secure_filename exn_str env files w).
Proof. apply spec_returns, voice_command_spec. Qed.

Lemma invoked_by_same {A} (m : M A) w a :
  m w = (a, w) → invoked_by m w = [].
Proof. intros H. unfold invoked_by. rewrite H. apply drop_all. Qed.

(** * The history prompt *)

Lemma foldl_add_turn acc turns :
  foldl add_turn acc turns = acc ++ concat (turn_lines <$> turns).
Proof.
  revert acc. induction turns as [|turn turns IH]; intros acc; simpl.
  - by rewrite app_nil_r.
  - rewrite IH. unfold add_turn, turn_lines.
    destruct (turn !! "user"), (turn !! "assistant"); simpl;
      by rewrite <- ?app_assoc.
Qed.

Lemma context_parts_lines h :
  context_parts (Some h) = concat (turn_lines <$> last_n 5 h).
Proof.
  destruct h as [|turn h]; [done|].
  unfold context_parts. by rewrite foldl_add_turn.
Qed.

Lemma last_n_idemp {A} n (l : list A) : last_n n (last_n n l) = last_n n l.
Proof.
  unfold last_n. rewrite length_drop.
  replace (length l - (length l - n) - n)%nat with 0%nat by lia. done.
Qed.

Lemma allowed_file_false_iff filename :
  allowed_file filename = Val false ↔ ¬ has_allowed_extension filename.
Proof.
  destruct (allowed_file_cases filename) as [[-> H]|[-> H]]; split; done.
Qed.

(** * The claims *)

(** C1. Whenever a voice-command request gets as far as saving its upload
    under [uploads/], the handler returns normally through one of its four
    exits (recognition failure, generation failure, synthesis failure,
    success) and the uploaded file is absent from the file system in the
    world it returns. *)
Theorem voice_command_removes_upload secure_filename exn_str env files w file_name :
  files !! "audio" = Some file_name →
  allowed_file file_name = Val true →
  file_save env (path_join UPLOAD_FOLDER (secure_filename file_name)) = Written →
  ∃ resp w' stages,
    voice_command secure_filename exn_str env files w = (Val resp, w')
    ∧ fs w' !! path_join UPLOAD_FOLDER (secure_filename file_name) = None
    ∧ voice_exit resp stages.
Proof.
  intros Hfile Hok Hsave.
  destruct (voice_command_returns secure_filename exn_str env files w)
    as (resp & w' & Hrun & Hpost).
  unfold voice_post in Hpost. rewrite Hfile, Hok, Hsave in Hpost.
  destruct (String.eqb_spec file_name "") as [->|_]; [done|].
  destruct Hpost as (Hgone & stages & _ & Hexit).
  by exists resp, w', stages.
Qed.

(** C2. The converted file is NOT deleted when recognition fails: if
    normalization wrote [<stem>_converted.wav] and [recognize_google] then
    raises [UnknownValueError] (no match) or [RequestError] (service
    error), [speech_to_text] returns [None] and the converted file is
    still in the file system. *)
Theorem speech_to_text_leaks_converted env audio_file_path w :
  let file_ext := lower (splitext audio_file_path).2 in
  let wav_path := (splitext audio_file_path).1 +:+ "_converted.wav" in
  file_ext ≠ ".wav" →
  audio_decode env audio_file_path (decode_format file_ext) = None →
  audio_export env wav_path = Written →
  audio_record env wav_path = None →
  (recognize_google env wav_path = Raise UnknownValueError
   ∨ ∃ detail, recognize_google env wav_path = Raise (RequestError detail)) →
  ∃ w', speech_to_text env audio_file_path w = (Val None, w')
        ∧ fs w' !! wav_path = Some (NFile (now env)).
Proof.
  intros file_ext wav_path Hext Hdec Hexp Hrec Hfail.
  unfold speech_to_text, _convert_to_wav, try_except, mbind, M_bind, mret,
    M_ret, invoke, check, lift_res.
  fold file_ext. fold wav_path.
  destruct (String.eqb_spec file_ext ".wav") as [|_]; [done|].
  rewrite Hdec, Hexp. simpl. rewrite Hrec.
  destruct Hfail as [-> | [detail ->]]; eexists; (split; [done|]);
    apply lookup_insert_eq.
Qed.

(** C3. A voice-command request whose file name has no allowed extension
    is answered with status 400 and leaves the world (temporary storage
    included) exactly as it was; when a file was selected (the name is not
    empty) the answer is the invalid-file-type error. *)
Theorem voice_command_rejects_extension secure_filename exn_str env files w file_name :
  files !! "audio" = Some file_name →
  ¬ has_allowed_extension file_name →
  ∃ resp,
    voice_command secure_filename exn_str env files w = (Val resp, w)
    ∧ status resp = 400%Z
    ∧ (file_name ≠ "" → resp = invalid_file_type env).
Proof.
  intros Hfile Hext.
  destruct (voice_command_returns secure_filename exn_str env files w)
    as (resp & w' & Hrun & Hpost).
  unfold voice_post in Hpost. rewrite Hfile in Hpost.
  apply allowed_file_false_iff in Hext. rewrite Hext in Hpost.
  destruct (String.eqb_spec file_name "") as [->|Hne];
    destruct Hpost as [-> ->]; eexists; (split; [exact Hrun|]);
    (split; [reflexivity|]); done.
Qed.

(** C4. A text-command request whose [text] is empty after [strip] is
    answered 400 "Empty text provided"; the world is unchanged and no
    stage (generation, synthesis) is invoked. *)
Theorem text_command_empty_input exn_str env fields text w :
  assoc "text" fields = Some (JStr text) →
  strip text = "" →
  text_command exn_str env (Val (JObj fields)) w
    = (Val (error_response "Empty text provided" 400), w)
  ∧ invoked_by (text_command exn_str env (Val (JObj fields))) w = [].
Proof.
  intros Hfield Hblank.
  assert (text_command exn_str env (Val (JObj fields)) w
          = (Val (error_response "Empty text provided" 400), w)) as Hrun.
  { unfold text_command, try_except, mbind, M_bind, lift_res, mret, M_ret.
    destruct fields as [|kv fields]; [done|].
    cbn [json_truthy json_contains json_getitem].
    rewrite Hfield. cbn [json_strip]. rewrite Hblank.
    rewrite bool_decide_eq_true_2 by eauto. done. }
  split; [done|]. by eapply invoked_by_same.
Qed.

(** C5. [_convert_to_wav] returns its input path, leaving the world
    untouched, when the lowercased extension is [.wav]; it returns its
    input path when decoding or the export to WAV raises; and it never
    raises. *)
Theorem convert_to_wav_fallback env audio_file_path w :
  let file_ext := lower (splitext audio_file_path).2 in
  let wav_path := (splitext audio_file_path).1 +:+ "_converted.wav" in
  (file_ext = ".wav" →
     _convert_to_wav env audio_file_path w = (Val audio_file_path, w))
  ∧ (is_Some (audio_decode env audio_file_path (decode_format file_ext))
     ∨ (∃ e leaves, audio_export env wav_path = WriteFailed e leaves) →
     ∃ w', _convert_to_wav env audio_file_path w = (Val audio_file_path, w'))
  ∧ (∃ r w', _convert_to_wav env audio_file_path w = (Val r, w')).
Proof.
  intros file_ext wav_path.
  unfold _convert_to_wav, try_except, mbind, M_bind, mret, M_ret.
  fold file_ext. fold wav_path.
  destruct (String.eqb_spec file_ext ".wav") as [Hwav|Hne].
  { repeat split; eauto. }
  split; [done|].
  destruct (audio_decode env audio_file_path (decode_format file_ext)) as [e|];
    simpl.
  { split; eauto. }
  destruct (audio_export env wav_path) as [|e []] eqn:Hexp; simpl.
  - split; [|eauto]. intros [[? [=]]|(? & ? & [=])].
  - split; eauto.
  - split; eauto.
Qed.

(** C6, as the code has it. Given the output directory,
    [cleanup_old_files] returns normally and deletes exactly the regular
    files of that directory whose computed age, the double-precision
    difference of [now] and the change time, is strictly greater than
    [max_age_hours] hours: each of them is gone afterwards and every other
    path of the file system is as before. For a threshold of at most
    [2^53] seconds every file it deletes is strictly older than the
    threshold; the converse fails within the rounding error of the
    subtraction. *)
Theorem cleanup_old_files_computed_age env self max_age_hours w :
  output_dir self = AUDIO_DIR →
  fs w !! AUDIO_DIR = Some NDir →
  ∃ w', cleanup_old_files env self max_age_hours w = (Val (), w')
        ∧ trace w' = trace w
        ∧ (∀ p, stale env AUDIO_DIR max_age_hours (fs w) p →
                fs w' !! p = None)
        ∧ (∀ p, ¬ stale env AUDIO_DIR max_age_hours (fs w) p →
                fs w' !! p = fs w !! p)
        ∧ ((Z.abs (max_age_hours * 3600) <= 2 ^ 53)%Z →
           ∀ p, stale env AUDIO_DIR max_age_hours (fs w) p →
                older_than env AUDIO_DIR max_age_hours (fs w) p).
Proof.
  intros Hself Hdir.
  destruct (cleanup_old_files_run env self max_age_hours w Hself Hdir)
    as (w' & Hrun & Htr & Hfs).
  exists w'. split; [done|]. split; [done|]. split; [|split].
  - intros p Hp. by destruct (Hfs p) as [[_ ?]|[? _]].
  - intros p Hp. by destruct (Hfs p) as [[? _]|[_ ?]].
  - intros Hk p. by apply stale_older_than.
Qed.

(** C6, as stated, fails at the boundary: with the clock at the double
    [86400.1] and a threshold of 24 hours, a file whose change time is
    the double [0.1] is strictly older than the threshold, and the sweep
    keeps it. *)
Lemma cleanup_old_files_keeps_older_file :
  let env := sample_env (Val "hi") (Val "hello") boundary_now in
  older_than env AUDIO_DIR 24 (fs boundary_world) "static/audio/old.mp3"
  ∧ ∃ w', cleanup_old_files env tts_service 24 boundary_world = (Val (), w')
          ∧ fs w' !! "static/audio/old.mp3" = Some (NFile boundary_ctime).
Proof.
  intros env. split.
  - exists "old.mp3", boundary_ctime. split; [reflexivity|].
    split; reflexivity.
  - destruct (cleanup_old_files_run env tts_service 24 boundary_world)
      as (w' & Hrun & _ & Hfs); [reflexivity..|].
    exists w'. split; [exact Hrun|].
    assert (fs boundary_world !! "static/audio/old.mp3"
            = Some (NFile boundary_ctime)) as Hfile by reflexivity.
    destruct (Hfs "static/audio/old.mp3")
      as [[(name & t & _ & Ht & Hgt) _]|[_ ->]]; [|exact Hfile].
    rewrite Hfile in Ht. injection Ht as <-.
    vm_compute in Hgt. discriminate.
Qed.

(** C7. The history enters the prompt only through its last five turns:
    the history splits into older turns and at most five recent ones, the
    context lines are the lines of the recent turns in their order (a user
    line followed by an assistant line for each turn holding both keys),
    the prompt is the one the recent turns alone give, and when there are
    context lines the prompt is the fixed header, the lines joined by
    newlines, and the footer. *)
Theorem contextual_prompt_recent_turns h current_text :
  ∃ older recent,
    h = older ++ recent
    ∧ length recent = min 5 (length h)
    ∧ context_parts (Some h) = concat (turn_lines <$> recent)
    ∧ contextual_prompt current_text (Some h)
      = contextual_prompt current_text (Some recent)
    ∧ (context_parts (Some h) ≠ [] →
       contextual_prompt current_text (Some h)
       = history_header +:+ str_join nl (concat (turn_lines <$> recent))
         +:+ history_footer current_text).
Proof.
  exists (take (length h - 5) h), (last_n 5 h).
  split; [unfold last_n; by rewrite take_drop|].
  split; [unfold last_n; rewrite length_drop; lia|].
  split; [apply context_parts_lines|].
  assert (context_parts (Some (last_n 5 h)) = context_parts (Some h)) as Hsame.
  { by rewrite !context_parts_lines, last_n_idemp. }
  split.
  - unfold contextual_prompt. by rewrite Hsame.
  - intros Hne. unfold contextual_prompt.
    rewrite <- context_parts_lines.
    destruct (context_parts (Some h)); done.
Qed.

(** Of eight complete turns, the prompt lines are those of turns four to
    eight. *)
Example context_parts_eight_turns (t1 t2 t3 t4 t5 t6 t7 t8 : gmap string string) :
  context_parts (Some [t1; t2; t3; t4; t5; t6; t7; t8])
  = turn_lines t4 ++ turn_lines t5 ++ turn_lines t6 ++ turn_lines t7
    ++ turn_lines t8.
Proof. rewrite context_parts_lines. simpl. by rewrite app_nil_r. Qed.

(** C8. A voice-command request during which the generation stage was
    invoked and which does not end in success is answered with status 500
    and a body made of the single field [error], holding one of two fixed
    messages: nothing of the recognized text or of the generated reply is
    in it. *)
Theorem voice_command_failure_body secure_filename exn_str env files w resp :
  (voice_command secure_filename exn_str env files w).1 = Val resp →
  (∃ t, GetResponse t
        ∈ invoked_by (voice_command secure_filename exn_str env files) w) →
  status resp ≠ 200%Z →
  status resp = 500%Z
  ∧ (body resp = [("error", "Could not get response from Gemini")]
     ∨ body resp = [("error", "Could not generate audio response")]).
Proof.
  intros Hrun [t Ht] Hfail.
  destruct (voice_command_returns secure_filename exn_str env files w)
    as (resp' & w' & Hrun' & Hpost).
  unfold invoked_by in Ht. rewrite Hrun' in Hrun, Ht. simpl in Hrun, Ht.
  injection Hrun as ->.
  assert (trace w' = trace w → False) as Htr.
  { intros E. rewrite E, drop_all in Ht. by apply elem_of_nil in Ht. }
  unfold voice_post in Hpost.
  destruct (files !! "audio") as [file_name|];
    [|destruct Hpost as [_ ->]; by destruct Htr].
  destruct (String.eqb file_name "");
    [destruct Hpost as [_ ->]; by destruct Htr|].
  destruct (allowed_file file_name) as [[]|];
    try (destruct Hpost as [_ ->]; by destruct Htr).
  destruct (file_save env _);
    [|destruct Hpost as [_ Heq]; by destruct (Htr Heq)].
  destruct Hpost as (_ & stages & Htrace & Hexit).
  rewrite Htrace, drop_app_length in Ht.
  destruct Hexit; simpl in *.
  - apply elem_of_cons in Ht as [?|Ht]; [done|]. by apply elem_of_nil in Ht.
  - auto.
  - auto.
  - done.
Qed.

(** C9. [GeminiService.__init__] raises [ValueError] when
    [GOOGLE_API_KEY] is unset or empty, and a service it does construct
    holds the non-empty key read from the environment. *)
Theorem gemini_init_requires_key env environ :
  (environ !! "GOOGLE_API_KEY" = None ∨ environ !! "GOOGLE_API_KEY" = Some "" →
     GeminiService_init env environ
     = Raise (ValueError "GOOGLE_API_KEY environment variable is required"))
  ∧ (∀ service, GeminiService_init env environ = Val service →
       api_key service ≠ ""
       ∧ environ !! "GOOGLE_API_KEY" = Some (api_key service)).
Proof.
  unfold GeminiService_init. split.
  - by intros [->| ->].
  - intros service. destruct (environ !! "GOOGLE_API_KEY") as [key|]; [|done].
    simpl. destruct (String.eqb_spec key "") as [->|Hne]; [done|].
    destruct (model_init env); [done|]. by intros [= <-].
Qed.

(** C10. [allowed_file] returns [True] exactly for the file names that
    contain a dot and whose part after the last dot, lowercased, is in the
    allow-list, and [False] for all others; so a name without a dot is
    refused, and the handler answers a selected file of that kind with the
    invalid-file-type error; the match ignores case ("A.WAV" is
    accepted). *)
Theorem allowed_file_iff filename :
  (allowed_file filename = Val true ↔ has_allowed_extension filename)
  ∧ (allowed_file filename = Val false ↔ ¬ has_allowed_extension filename)
  ∧ (contains_char "." filename = false →
       allowed_file filename = Val false
       ∧ ∀ secure_filename exn_str env files w,
           files !! "audio" = Some filename → filename ≠ "" →
           voice_command secure_filename exn_str env files w
           = (Val (invalid_file_type env), w))
  ∧ allowed_file "A.WAV" = Val true.
Proof.
  split; [apply allowed_file_true_iff|].
  split; [apply allowed_file_false_iff|].
  split; [|done].
  intros Hdot.
  assert (allowed_file filename = Val false) as Hno.
  { unfold allowed_file. by rewrite Hdot. }
  split; [done|]. intros secure_filename exn_str env files w Hfile Hne.
  destruct (voice_command_returns secure_filename exn_str env files w)
    as (resp & w' & Hrun & Hpost).
  unfold voice_post in Hpost. rewrite Hfile, Hno in Hpost.
  destruct (String.eqb_spec filename "") as [|_]; [done|].
  by destruct Hpost as [-> ->].
Qed.

(** * Witnesses: the theorems at concrete requests *)

Lemma voice_command_removes_upload_witness :
  let env := sample_env (Val "what time is it") (Val "It is noon.") (1000 # 1) in
  let files : gmap string string := {[ "audio" := "hello.mp3" ]} in
  files !! "audio" = Some "hello.mp3"
  ∧ allowed_file "hello.mp3" = Val true
  ∧ file_save env (path_join UPLOAD_FOLDER "hello.mp3") = Written
  ∧ ∃ resp w' stages,
      voice_command (λ s, s) (λ _, "") env files empty_world = (Val resp, w')
      ∧ fs w' !! path_join UPLOAD_FOLDER "hello.mp3" = None
      ∧ voice_exit resp stages.
Proof.
  intros env files.
  split; [reflexivity|]. split; [reflexivity|]. split; [reflexivity|].
  apply (voice_command_removes_upload (λ s, s) (λ _, "") env files empty_world
           "hello.mp3"); reflexivity.
Defined.

Lemma speech_to_text_leaks_converted_witness :
  let env := sample_env (Raise UnknownValueError) (Val "unused") (1000 # 1) in
  ∃ w', speech_to_text env "uploads/a.mp3" empty_world = (Val None, w')
        ∧ fs w' !! "uploads/a_converted.wav" = Some (NFile (1000 # 1)).
Proof.
  intros env.
  apply (speech_to_text_leaks_converted env "uploads/a.mp3" empty_world).
  - vm_compute. discriminate.
  - reflexivity.
  - reflexivity.
  - reflexivity.
  - left. reflexivity.
Defined.

Lemma voice_command_rejects_extension_witness :
  let env := sample_env (Val "hi") (Val "hello") (1000 # 1) in
  let files : gmap string string := {[ "audio" := "notes.txt" ]} in
  ∃ resp,
    voice_command (λ s, s) (λ _, "") env files empty_world
    = (Val resp, empty_world)
    ∧ status resp = 400%Z
    ∧ ("notes.txt" ≠ "" → resp = invalid_file_type env).
Proof.
  intros env files.
  apply (voice_command_rejects_extension (λ s, s) (λ _, "") env files
           empty_world "notes.txt").
  - reflexivity.
  - apply allowed_file_false_iff. reflexivity.
Defined.

Lemma text_command_empty_input_witness :
  let env := sample_env (Val "hi") (Val "hello") (1000 # 1) in
  text_command (λ _, "") env (Val (JObj [("text", JStr "  ")])) empty_world
    = (Val (error_response "Empty text provided" 400), empty_world)
  ∧ invoked_by (text_command (λ _, "") env (Val (JObj [("text", JStr "  ")])))
      empty_world = [].
Proof.
  intros env.
  apply (text_command_empty_input (λ _, "") env [("text", JStr "  ")] "  "
           empty_world); reflexivity.
Defined.

Lemma convert_to_wav_fallback_witness :
  let env := sample_env (Val "hi") (Val "hello") (1000 # 1) in
  _convert_to_wav env "uploads/A.WAV" empty_world
  = (Val "uploads/A.WAV", empty_world).
Proof.
  intros env.
  apply (proj1 (convert_to_wav_fallback env "uploads/A.WAV" empty_world)).
  reflexivity.
Defined.

Lemma cleanup_old_files_computed_age_witness :
  let env := sample_env (Val "hi") (Val "hello") (100000 # 1) in
  ∃ w', cleanup_old_files env tts_service 24 aged_world = (Val (), w')
        ∧ fs w' !! "static/audio/h25.mp3" = None
        ∧ fs w' !! "static/audio/h23.mp3" = Some (NFile (17200 # 1))
        ∧ fs w' !! "static/audio/h1.mp3" = Some (NFile (96400 # 1))
        ∧ fs w' !! AUDIO_DIR = Some NDir.
Proof.
  intros env.
  destruct (cleanup_old_files_computed_age env tts_service 24 aged_world)
    as (w' & Hrun & _ & Hdel & Hkeep & _); [reflexivity..|].
  exists w'. split; [exact Hrun|].
  assert (∀ p n, fs aged_world !! p = Some n →
            (∀ t, n = NFile t →
                  float_gt_int (float_sub (now env) t) (24 * 3600) = false) →
            fs w' !! p = Some n) as Hstay.
  { intros p n Hp Hyoung. rewrite Hkeep; [exact Hp|].
    intros (name & t & _ & Hpt & Hgt). rewrite Hp in Hpt.
    injection Hpt as ->. rewrite (Hyoung t eq_refl) in Hgt. discriminate. }
  split; [|split; [|split]].
  - apply Hdel. exists "h25.mp3", (10000 # 1).
    split; [reflexivity|]. split; reflexivity.
  - apply Hstay; [reflexivity|]. intros t [= <-]. reflexivity.
  - apply Hstay; [reflexivity|]. intros t [= <-]. reflexivity.
  - apply Hstay; [reflexivity|]. intros t [=].
Defined.

Lemma contextual_prompt_recent_turns_witness :
  let turn (u a : string) : gmap string string :=
    {[ "user" := u; "assistant" := a ]} in
  let h := [turn "q1" "a1"; turn "q2" "a2"; turn "q3" "a3"; turn "q4" "a4";
            turn "q5" "a5"; turn "q6" "a6"; turn "q7" "a7"; turn "q8" "a8"] in
  ∃ older recent,
    h = older ++ recent
    ∧ length recent = 5%nat
    ∧ context_parts (Some h) = concat (turn_lines <$> recent).
Proof.
  intros turn h.
  destruct (contextual_prompt_recent_turns h "next") as
    (older & recent & Hsplit & Hlen & Hparts & _).
  exists older, recent. split; [exact Hsplit|]. split; [exact Hlen|exact Hparts].
Defined.

Lemma voice_command_failure_body_witness :
  let env := sample_env (Val "what time is it") (Raise (LibraryError "quota"))
               (1000 # 1) in
  let files : gmap string string := {[ "audio" := "hello.wav" ]} in
  let resp := error_response "Could not get response from Gemini" 500 in
  status resp = 500%Z
  ∧ (body resp = [("error", "Could not get response from Gemini")]
     ∨ body resp = [("error", "Could not generate audio response")]).
Proof.
  intros env files resp.
  apply (voice_command_failure_body (λ s, s) (λ _, "") env files empty_world resp).
  - reflexivity.
  - exists "what time is it". vm_compute.
    apply list_elem_of_further, list_elem_of_here.
  - vm_compute. discriminate.
Defined.

Lemma gemini_init_requires_key_witness :
  let env := sample_env (Val "hi") (Val "hello") (1000 # 1) in
  GeminiService_init env {[ "GOOGLE_API_KEY" := "" ]}
  = Raise (ValueError "GOOGLE_API_KEY environment variable is required").
Proof.
  intros env.
  apply (proj1 (gemini_init_requires_key env {[ "GOOGLE_API_KEY" := "" ]})).
  right. reflexivity.
Defined.

Lemma allowed_file_iff_witness :
  allowed_file "README" = Val false
  ∧ ∀ secure_filename exn_str env files w,
      files !! "audio" = Some "README" → "README" ≠ "" →
      voice_command secure_filename exn_str env files w
      = (Val (invalid_file_type env), w).
Proof.
  apply (proj1 (proj2 (proj2 (allowed_file_iff "README")))). reflexivity.
Defined.

(** * Further properties *)

Lemma get_response_run env prompt w :
  get_response env prompt None w
  = (Val (generated env prompt), add_stage w (GetResponse prompt)).
Proof.
  unfold get_response, generated, plain_prompt, try_except, mbind, M_bind,
    mret, M_ret, invoke, lift_res, add_stage. cbn [nonempty].
  destruct (generate_content env _) as [text|e]; [|done].
  by destruct (String.eqb text "").
Qed.

Lemma text_to_speech_run env text w :
  text_to_speech env tts_service text None w
  = let w1 := add_stage w (TextToSpeech text) in
    if blank text then (Val None, w1)
    else match gtts_save env text (audio_path env) with
         | Written => (Val (Some (audio_path env)),
                       with_file (now env) (audio_path env) w1)
         | WriteFailed _ true =>
             (Val None, with_file (now env) (audio_path env) w1)
         | WriteFailed _ false => (Val None, w1)
         end.
Proof.
  unfold text_to_speech, _gtts_convert, blank, audio_path, default_audio_name,
    try_except, mbind, M_bind, mret, M_ret, invoke, add_stage, with_file.
  cbn [nonempty tts_service use_gtts output_dir].
  destruct (String.eqb text "" || String.eqb (strip text) ""); [done|].
  cbn [fs trace].
  by destruct (gtts_save env text _) as [|e []].
Qed.

Lemma audio_path_eq env :
  audio_path env
  = "static/audio/response_" +:+ pretty (int_of_time (now env)) +:+ ".mp3".
Proof. reflexivity. Qed.

Lemma nonempty_audio_path env : nonempty (Some (audio_path env)) = Some (audio_path env).
Proof. by rewrite audio_path_eq. Qed.

Lemma text_command_run exn_str env fields text w :
  assoc "text" fields = Some (JStr text) →
  strip text ≠ "" →
  text_command exn_str env (Val (JObj fields)) w
  = let w1 := add_stage w (GetResponse (strip text)) in
    match nonempty (generated env (strip text)) with
    | None => (Val (error_response "Could not get response from Gemini" 500), w1)
    | Some g =>
        let w2 := add_stage w1 (TextToSpeech g) in
        let failed := error_response "Could not generate audio response" 500 in
        if blank g then (Val failed, w2)
        else match gtts_save env g (audio_path env) with
             | Written =>
                 (Val (text_success (strip text) g (audio_path env)),
                  with_file (now env) (audio_path env) w2)
             | WriteFailed _ true =>
                 (Val failed, with_file (now env) (audio_path env) w2)
             | WriteFailed _ false => (Val failed, w2)
             end
    end.
Proof.
  intros Hfield Hne.
  unfold text_command, try_except, mbind, M_bind, lift_res, mret, M_ret.
  destruct fields as [|kv fields]; [done|].
  cbn [json_truthy json_contains json_getitem].
  rewrite Hfield. cbn [json_strip].
  rewrite bool_decide_eq_true_2 by eauto. cbn [negb].
  destruct (String.eqb_spec (strip text) "") as [|_]; [done|].
  rewrite get_response_run.
  destruct (nonempty (generated env (strip text))) as [g|]; [|done].
  rewrite text_to_speech_run. cbn zeta.
  destruct (blank g); [done|].
  by destruct (gtts_save env g (audio_path env)) as [|e []].
Qed.

(** ** Whitespace *)

Lemma rstrip_cons c s :
  isspace c = false → rstrip (String c s) = String c (rstrip s).
Proof. intros Hc. cbn [rstrip]. rewrite Hc. by destruct (rstrip s). Qed.

Lemma rstrip_unfold c s :
  rstrip (String c s)
  = match rstrip s with
    | EmptyString => if isspace c then EmptyString else String c EmptyString
    | r => String c r
    end.
Proof. done. Qed.

Lemma rstrip_idemp s : rstrip (rstrip s) = rstrip s.
Proof.
  induction s as [|c s IH]; [done|]. rewrite rstrip_unfold.
  destruct (rstrip s) as [|d r] eqn:E.
  - destruct (isspace c) eqn:Hc; [done|]. rewrite rstrip_unfold.
    cbn [rstrip]. by rewrite Hc.
  - rewrite rstrip_unfold, IH. done.
Qed.

Lemma lstrip_head s :
  lstrip s = "" ∨ ∃ c t, lstrip s = String c t ∧ isspace c = false.
Proof.
  induction s as [|c s IH]; [by left|]. cbn [lstrip].
  destruct (isspace c) eqn:Hc; [done|]. right. by exists c, s.
Qed.

Lemma strip_idemp s : strip (strip s) = strip s.
Proof.
  unfold strip. destruct (lstrip_head s) as [->|(c & t & -> & Hc)]; [done|].
  rewrite rstrip_cons by done. cbn [lstrip]. rewrite Hc.
  rewrite rstrip_cons by done. by rewrite rstrip_idemp.
Qed.

Lemma generated_not_blank env prompt g :
  nonempty (generated env prompt) = Some g → blank g = false.
Proof.
  unfold generated, blank.
  destruct (generate_content env _) as [text|e]; [|done].
  destruct (String.eqb text ""); [done|]. cbn [nonempty].
  destruct (String.eqb_spec (strip text) "") as [|Hne]; [done|].
  intros [= <-]. rewrite strip_idemp.
  by destruct (String.eqb_spec (strip text) "").
Qed.

Ltac status_case :=
  cbn [status error_response];
  first [ left; reflexivity | right; left; reflexivity
        | right; right; reflexivity ].

Lemma text_post_error env w msg code :
  code = 400%Z ∨ code = 500%Z → text_post env w (error_response msg code) w.
Proof.
  intros Hcode. split; [|split; [done|]].
  - unfold handler_status. cbn [status error_response]. tauto.
  - cbn [status error_response]. intros ->. by destruct Hcode.
Qed.

Lemma text_command_rest exn_str env data w a :
  spec
    (if negb a
     then mret (error_response "No text provided" 400)
     else
       value ← lift_res (json_getitem "text" data);
       input_text ← lift_res (json_strip value);
       if String.eqb input_text "" then
         mret (error_response "Empty text provided" 400)
       else
         gemini_response ← get_response env input_text None;
         match nonempty gemini_response with
         | None => mret (error_response "Could not get response from Gemini" 500)
         | Some gemini_response =>
             audio_response_path ←
               text_to_speech env tts_service gemini_response None;
             match nonempty audio_response_path with
             | None =>
                 mret (error_response "Could not generate audio response" 500)
             | Some audio_response_path =>
                 mret {| status := 200;
                         body :=
                           [("status", "success");
                            ("input_text", input_text);
                            ("response_text", gemini_response);
                            ("audio_response_url",
                             "/download-audio/"
                             +:+ basename audio_response_path)] |}
             end
         end) w
    (text_post env w)
    (λ e w1,
       spec (mret (error_response ("Internal server error: " +:+ exn_str e) 500))
         w1 (text_post env w) no_exn).
Proof.
  destruct a; cbn [negb]; wp; [|apply text_post_error; auto].
  destruct (json_getitem "text" data) as [value|e]; wp;
    [|apply text_post_error; auto].
  destruct (json_strip value) as [input_text|e]; wp;
    [|apply text_post_error; auto].
  destruct (String.eqb input_text ""); wp; [apply text_post_error; auto|].
  unfold spec at 1. rewrite get_response_run.
  destruct (nonempty (generated env input_text)) as [g|]; wp.
  - unfold spec at 1. rewrite text_to_speech_run. cbn zeta.
    assert (∀ w2 : World, fs w2 = fs w ∨ fs w2 = <[audio_path env := NFile (now env)]> (fs w) →
            trace w2 = (trace w ++ [GetResponse input_text]) ++ [TextToSpeech g] →
            text_post env w (error_response "Could not generate audio response" 500) w2)
      as Hfail.
    { intros w2 Hfs Htr. split; [status_case|]. split.
      - intros q. destruct Hfs as [-> | ->]; [done|apply is_file_insert].
      - cbn [status error_response]. done. }
    destruct (blank g); [wp; apply Hfail; by auto|].
    destruct (gtts_save env g (audio_path env)) as [|e []].
    + rewrite nonempty_audio_path. wp. split; [status_case|]. split.
      * intros q. cbn [with_file add_stage fs]. apply is_file_insert.
      * intros _. exists input_text, g. split; [done|]. split.
        -- eexists. cbn [with_file fs]. apply lookup_insert_eq.
        -- cbn [with_file add_stage trace]. by rewrite <- app_assoc.
    + wp. apply Hfail; by auto.
    + wp. apply Hfail; by auto.
  - split; [status_case|]. split; [done|]. cbn [status error_response]. done.
Qed.

Lemma text_command_spec exn_str env get_json w :
  spec (text_command exn_str env get_json) w (text_post env w) no_exn.
Proof.
  unfold text_command. wp.
  destruct get_json as [data|e]; wp; [|apply text_post_error; auto].
  destruct (json_truthy data); wp.
  - destruct (json_contains "text" data) as [a|e]; wp;
      [apply text_command_rest|apply text_post_error; auto].
  - apply (text_command_rest exn_str env data w false).
Qed.

(** X1. [text_command] always answers: it never raises, its status is
    200, 400 or 500, and every file present before the request is still
    present after it. *)
Theorem text_command_always_responds exn_str env get_json w :
  ∃ resp w',
    text_command exn_str env get_json w = (Val resp, w')
    ∧ handler_status (status resp)
    ∧ ∀ q, is_file (fs w) q → is_file (fs w') q.
Proof.
  destruct (proj1 (spec_returns _ _ _) (text_command_spec exn_str env get_json w))
    as (resp & w' & Hrun & Hstatus & Hkeep & _).
  by exists resp, w'.
Qed.

(** ** Generated file names *)

Lemma pretty_N_go_no_slash x s :
  contains_char "/" (pretty_N_go x s) = contains_char "/" s.
Proof.
  revert s. induction (N.lt_wf_0 x) as [x _ IH]; intros s.
  assert (x = 0 ∨ 0 < x)%N as [->|Hpos] by lia.
  - by rewrite pretty_N_go_0.
  - rewrite pretty_N_go_step by done. rewrite IH by (by apply N.div_lt).
    cbn [contains_char]. unfold pretty_N_char. by repeat case_match.
Qed.

Lemma pretty_Z_no_slash (z : Z) : contains_char "/" (pretty z) = false.
Proof.
  assert (∀ p : positive, contains_char "/" (pretty p) = false) as Hpos.
  { intros p. unfold pretty, pretty_positive, pretty, pretty_N.
    case_decide; [done|]. by rewrite pretty_N_go_no_slash. }
  destruct z as [|p|p]; [done|apply Hpos|].
  unfold pretty, pretty_Z. rewrite contains_char_app, Hpos. done.
Qed.

Lemma default_audio_name_no_slash t :
  contains_char "/" (default_audio_name t) = false.
Proof.
  unfold default_audio_name.
  by rewrite !contains_char_app, pretty_Z_no_slash.
Qed.

Lemma basename_join d name :
  contains_char "/" name = false → basename (d +:+ String "/" name) = name.
Proof.
  intros Hname. unfold basename.
  by rewrite (proj2 (rsplit1_Some "/" (d +:+ String "/" name) d name)).
Qed.

Lemma audio_path_split env :
  audio_path env = AUDIO_DIR +:+ String "/" (default_audio_name (now env)).
Proof. reflexivity. Qed.

Lemma basename_audio_path env :
  basename (audio_path env) = default_audio_name (now env).
Proof.
  rewrite audio_path_split. apply basename_join, default_audio_name_no_slash.
Qed.

(** ** Downloads *)

Lemma download_audio_run filename w :
  download_audio filename w
  = (Val (match fs w !! path_join AUDIO_DIR filename with
          | Some (NFile _) => SendFile (path_join AUDIO_DIR filename)
          | Some NDir =>
              DownloadError (error_response "Could not download audio file" 500)
          | None => DownloadError (error_response "Audio file not found" 404)
          end), w).
Proof.
  unfold download_audio, try_except, mbind, M_bind, mret, M_ret,
    os_path_exists, send_file.
  change (path_join "static" "audio") with AUDIO_DIR.
  destruct (fs w !! path_join AUDIO_DIR filename) as [[t|]|] eqn:E.
  - rewrite bool_decide_eq_true_2 by eauto. by rewrite E.
  - rewrite bool_decide_eq_true_2 by eauto. by rewrite E.
  - rewrite bool_decide_eq_false_2; [done|]. by intros [? [=]].
Qed.

(** X2. The URL a successful text command returns can be downloaded: the
    answer names a file under [/download-audio/], and [download_audio] of
    that name, in the world the request leaves, sends an existing file. *)
Theorem text_command_audio_downloadable exn_str env get_json w resp w' :
  text_command exn_str env get_json w = (Val resp, w') →
  status resp = 200%Z →
  ∃ name path,
    ("audio_response_url", "/download-audio/" +:+ name) ∈ body resp
    ∧ download_audio name w' = (Val (SendFile path), w')
    ∧ is_file (fs w') path.
Proof.
  intros Hrun Hok.
  pose proof (text_command_spec exn_str env get_json w) as Hspec.
  unfold spec in Hspec. rewrite Hrun in Hspec.
  destruct Hspec as (_ & _ & Hsuccess).
  destruct (Hsuccess Hok) as (t & g & -> & [ctime Hfile] & _).
  exists (default_audio_name (now env)), (audio_path env).
  split; [|split].
  - cbn [body text_success]. rewrite basename_audio_path.
    do 3 apply list_elem_of_further. apply list_elem_of_here.
  - rewrite download_audio_run.
    change (path_join AUDIO_DIR (default_audio_name (now env)))
      with (audio_path env).
    by rewrite Hfile.
  - by exists ctime.
Qed.

(** ** Recognition and the converted file *)

Lemma string_app_inv_head (s t u : string) : s +:+ t = s +:+ u → t = u.
Proof.
  induction s as [|c s IH]; [done|].
  change (String c (s +:+ t) = String c (s +:+ u) → t = u).
  intros [= H]. by apply IH.
Qed.

Lemma string_app_nil_r (s : string) : s +:+ "" = s.
Proof.
  induction s as [|c s IH]; [done|].
  change (String c (s +:+ "") = String c s). by rewrite IH.
Qed.

Lemma splitext_app p : p = (splitext p).1 +:+ (splitext p).2.
Proof.
  unfold splitext. destruct (rsplit1 "." p) as [[root ext]|] eqn:E.
  - apply rsplit1_Some in E as [-> _].
    destruct (contains_char "/" ext); [by rewrite string_app_nil_r|].
    destruct (all_dots (basename root)); [by rewrite string_app_nil_r|done].
  - by rewrite string_app_nil_r.
Qed.

Lemma splitext_ext p :
  (splitext p).2 = "" ∨ ∃ ext, (splitext p).2 = String "." ext.
Proof.
  unfold splitext. destruct (rsplit1 "." p) as [[root ext]|]; [|by left].
  destruct (contains_char "/" ext); [by left|].
  destruct (all_dots (basename root)); [by left|]. right. by exists ext.
Qed.

Lemma converted_path_ne p : converted_path p ≠ p.
Proof.
  unfold converted_path. intros Heq.
  pose proof (splitext_app p) as Hp.
  pose proof (splitext_ext p) as Hext.
  destruct (splitext p) as [root ext]. cbn [fst snd] in *.
  rewrite Hp in Heq. apply string_app_inv_head in Heq.
  destruct Hext as [->|[ext' ->]]; discriminate.
Qed.

Lemma convert_to_wav_frame env p w :
  spec (_convert_to_wav env p) w
    (λ r w', trace w' = trace w
             ∧ (r = p ∨ r = converted_path p)
             ∧ (∀ q, q ≠ converted_path p → fs w' !! q = fs w !! q)
             ∧ (is_file (fs w) p → is_file (fs w') p))
    no_exn.
Proof.
  unfold _convert_to_wav. fold (converted_path p). wp.
  destruct (String.eqb _ ".wav"); wp; [by auto|].
  destruct (audio_decode _ _ _); wp; [by auto|].
  destruct (audio_export _ _) as [|e []]; wp; cbn [fs trace];
    try (by auto); (split; [done|]); (split; [by auto|]);
    (split; [|apply is_file_insert]);
    intros q Hq; by rewrite lookup_insert_ne.
Qed.

Lemma speech_to_text_frame env p w :
  spec (speech_to_text env p) w
    (λ r w', trace w' = trace w ++ [SpeechToText p]
             ∧ (∀ q, q ≠ converted_path p → fs w' !! q = fs w !! q)
             ∧ (is_file (fs w) p → is_file (fs w') p))
    no_exn.
Proof.
  unfold speech_to_text. wp.
  eapply spec_mono; [apply convert_to_wav_frame| |done].
  intros wav w1 (Htr & Hwav & Hframe & Hkeep); cbn [fs trace] in *. wp.
  destruct (audio_record env wav); wp; [done|].
  destruct (recognize_google env wav) as [text|e]; wp.
  - case_bool_decide as Hne; wp; [|done].
    destruct Hwav as [->| ->]; [done|].
    case_bool_decide as Hex; wp; [|done].
    destruct (fs w1 !! converted_path p) as [[t|]|] eqn:E; wp; cbn [fs trace];
      [|done..].
    split; [done|]. split.
    + intros q Hq. rewrite lookup_delete_ne by done. by apply Hframe.
    + intros H. apply is_file_delete; auto.
  - destruct e; wp; done.
Qed.

(** X3. [speech_to_text] never raises, and the only path of the file
    system it can change is the converted path [<stem>_converted.wav],
    which is never the path it was given: the input file is as before. *)
Theorem speech_to_text_touches_converted_only env audio_file_path w :
  ∃ r w',
    speech_to_text env audio_file_path w = (Val r, w')
    ∧ converted_path audio_file_path ≠ audio_file_path
    ∧ fs w' !! audio_file_path = fs w !! audio_file_path
    ∧ ∀ q, q ≠ converted_path audio_file_path → fs w' !! q = fs w !! q.
Proof.
  destruct (proj1 (spec_returns _ _ _)
              (speech_to_text_frame env audio_file_path w))
    as (r & w' & Hrun & _ & Hframe & _).
  exists r, w'. split; [done|]. split; [apply converted_path_ne|].
  split; [|done]. apply Hframe. intros Heq.
  by apply (converted_path_ne audio_file_path).
Qed.

(** X4. When conversion and recognition succeed, [speech_to_text] returns
    the recognized text and leaves no converted file: the file system is
    the one before the call without the converted path. *)
Theorem speech_to_text_success_cleans env audio_file_path w text :
  let file_ext := lower (splitext audio_file_path).2 in
  let wav_path := converted_path audio_file_path in
  file_ext ≠ ".wav" →
  audio_decode env audio_file_path (decode_format file_ext) = None →
  audio_export env wav_path = Written →
  audio_record env wav_path = None →
  recognize_google env wav_path = Val text →
  ∃ w', speech_to_text env audio_file_path w = (Val (Some text), w')
        ∧ fs w' = delete wav_path (fs w)
        ∧ fs w' !! wav_path = None.
Proof.
  intros file_ext wav_path Hext Hdec Hexp Hrec Htext.
  unfold speech_to_text, _convert_to_wav, try_except, mbind, M_bind, mret,
    M_ret, invoke, check, lift_res, os_path_exists, os_remove.
  fold (converted_path audio_file_path). fold wav_path. fold file_ext.
  destruct (String.eqb_spec file_ext ".wav") as [|_]; [done|].
  rewrite Hdec, Hexp. simpl. rewrite Hrec, Htext. simpl.
  rewrite bool_decide_eq_true_2 by apply converted_path_ne.
  cbn [fs]. rewrite lookup_insert_eq.
  rewrite bool_decide_eq_true_2 by eauto.
  cbn [fs trace]. rewrite lookup_insert_eq.
  eexists. split; [done|]. cbn [fs].
  rewrite delete_insert_eq. split; [done|apply lookup_delete_eq].
Qed.

(** X5. For an input that already is a WAV file, [speech_to_text] does
    not touch the file system, whatever loading and recognition answer. *)
Theorem speech_to_text_wav_pure env audio_file_path w :
  lower (splitext audio_file_path).2 = ".wav" →
  ∃ r, speech_to_text env audio_file_path w
       = (Val r, add_stage w (SpeechToText audio_file_path)).
Proof.
  intros Hwav.
  unfold speech_to_text, _convert_to_wav, try_except, mbind, M_bind, mret,
    M_ret, invoke, check, lift_res, os_path_exists, os_remove, add_stage.
  rewrite Hwav. simpl.
  destruct (audio_record env audio_file_path); simpl; [by eexists|].
  destruct (recognize_google env audio_file_path) as [text|e]; simpl.
  - rewrite bool_decide_eq_false_2 by (by intros H). simpl. by eexists.
  - destruct e; simpl; by eexists.
Qed.

(** ** The voice path in detail *)

Lemma voice_command_saved secure_filename exn_str env files w file_name :
  files !! "audio" = Some file_name →
  allowed_file file_name = Val true →
  file_save env (path_join UPLOAD_FOLDER (secure_filename file_name)) = Written →
  spec (voice_command secure_filename exn_str env files) w
    (voice_saved_post env (path_join UPLOAD_FOLDER (secure_filename file_name)) w)
    no_exn.
Proof.
  intros Hfile Hok Hsave. unfold voice_command, voice_saved_post. wp.
  rewrite Hfile. destruct (String.eqb_spec file_name "") as [->|_]; [done|].
  wp. rewrite Hok. wp.
  set (filepath := path_join UPLOAD_FOLDER (secure_filename file_name)) in *.
  rewrite Hsave. wp.
  eapply spec_mono; [apply speech_to_text_frame| |done].
  intros r1 w1 (Htr1 & Hframe1 & Hkeep1); cbn [fs trace] in *.
  assert (is_file (fs w1) filepath) as [t1 Hf1].
  { apply Hkeep1. eexists. apply lookup_insert_eq. }
  assert (∀ q, q ≠ filepath → q ≠ converted_path filepath →
            is_file (fs w) q → is_file (fs w1) q) as Hothers.
  { intros q Hq Hqc [t Ht]. exists t. rewrite Hframe1 by done.
    by rewrite lookup_insert_ne. }
  assert (∀ (msg : string) (code : Z) (f2 : gmap string node) (P : Prop),
            code ≠ 200%Z →
            (∀ q, is_file (fs w1) q → is_file f2 q) →
            (∀ q, q ≠ filepath → q ≠ converted_path filepath →
                  is_file (fs w) q → is_file (delete filepath f2) q)
            ∧ (status (error_response msg code) = 200%Z → P))
    as Hfail.
  { intros msg code f2 P Hcode Hkeep. split; [|done].
    intros q Hq Hqc Hin. apply is_file_delete; [done|]. by apply Hkeep, Hothers. }
  destruct (nonempty r1) as [recognized|]; wp.
  - unfold spec at 1. rewrite get_response_run.
    destruct (nonempty (generated env recognized)) as [gemini|]; wp.
    + unfold spec at 1. rewrite text_to_speech_run. cbn zeta.
      destruct (blank gemini).
      { cbn [nonempty]. wp. cbn [add_stage fs]. rewrite Hf1. wp.
        cbn [fs trace]. by apply Hfail. }
      destruct (gtts_save env gemini (audio_path env)) as [|e []].
      * rewrite nonempty_audio_path. wp. cbn [with_file add_stage fs trace].
        destruct (<[audio_path env:=NFile (now env)]> (fs w1) !! filepath)
          as [[t|]|] eqn:E; wp.
        -- cbn [fs trace]. split.
           ++ intros q Hq Hqc Hin. apply is_file_delete; [done|].
              by apply is_file_insert, Hothers.
           ++ intros _. exists recognized, gemini. split; [done|]. split.
              ** rewrite Htr1. by rewrite <- !app_assoc.
              ** intros Hne. apply is_file_delete; [done|].
                 eexists. apply lookup_insert_eq.
        -- exfalso. destruct (decide (audio_path env = filepath)) as [Heq|Hne].
           ++ by rewrite Heq, lookup_insert_eq in E.
           ++ rewrite lookup_insert_ne in E by done. congruence.
        -- exfalso. destruct (decide (audio_path env = filepath)) as [Heq|Hne].
           ++ by rewrite Heq, lookup_insert_eq in E.
           ++ rewrite lookup_insert_ne in E by done. congruence.
      * cbn [nonempty]. wp. cbn [with_file add_stage fs trace].
        assert (is_file (<[audio_path env:=NFile (now env)]> (fs w1)) filepath)
          as [t Ht] by (apply is_file_insert; by eexists).
        rewrite Ht. wp. cbn [fs trace].
        apply Hfail; [done|]. intros q. apply is_file_insert.
      * cbn [nonempty]. wp. cbn [add_stage fs]. rewrite Hf1. wp.
        cbn [fs trace]. by apply Hfail.
    + cbn [add_stage fs]. rewrite Hf1. wp. cbn [fs trace]. by apply Hfail.
  - rewrite Hf1. wp. cbn [fs trace]. by apply Hfail.
Qed.

Lemma invoked_by_app {A} (m : M A) w r w' stages :
  m w = (r, w') → trace w' = trace w ++ stages → invoked_by m w = stages.
Proof.
  intros Hrun Htr. unfold invoked_by. rewrite Hrun. cbn [snd].
  rewrite Htr. apply drop_app_length.
Qed.

Lemma voice_exit_status resp stages :
  voice_exit resp stages →
  handler_status (status resp)
  ∧ (status resp = 400%Z → stages = [])
  ∧ (status resp = 200%Z →
     ∃ t g a, resp = success_response t g a
              ∧ stages = [GetResponse t; TextToSpeech g]).
Proof.
  unfold handler_status. intros [|t|t g|t g a]; cbn [status error_response
    success_response]; (split; [tauto|]); (split; [done|]); try done.
  intros _. by exists t, g, a.
Qed.

(** X6. [voice_command] always answers: it never raises, its status is
    200, 400 or 500, and the stages it invoked are the pipeline
    (recognition, generation, synthesis) cut at some point, each stage at
    most once and in that order. *)
Theorem voice_command_always_responds secure_filename exn_str env files w :
  ∃ resp w',
    voice_command secure_filename exn_str env files w = (Val resp, w')
    ∧ handler_status (status resp)
    ∧ pipeline_prefix (invoked_by (voice_command secure_filename exn_str env files) w).
Proof.
  destruct (voice_command_returns secure_filename exn_str env files w)
    as (resp & w' & Hrun & Hpost).
  exists resp, w'. split; [done|].
  assert (∀ msg code, code = 400%Z ∨ code = 500%Z →
            handler_status (status (error_response msg code))) as Herr.
  { intros msg code Hcode. unfold handler_status. cbn. tauto. }
  assert (w' = w → pipeline_prefix
            (invoked_by (voice_command secure_filename exn_str env files) w))
    as Hsame.
  { intros ->. rewrite (invoked_by_same _ _ _ Hrun). constructor. }
  unfold voice_post in Hpost.
  destruct (files !! "audio") as [file_name|];
    [|destruct Hpost as [-> ?]; split; [apply Herr|]; auto].
  destruct (String.eqb file_name "");
    [destruct Hpost as [-> ?]; split; [apply Herr|]; auto|].
  destruct (allowed_file file_name) as [[]|];
    try (destruct Hpost as [-> ?]; split; [apply Herr|]; by auto).
  destruct (file_save env _).
  - destruct Hpost as (_ & stages & Htr & Hexit).
    split; [by apply voice_exit_status in Hexit as [? _]|].
    rewrite (invoked_by_app _ _ _ _ _ Hrun Htr).
    destruct Hexit; constructor.
  - destruct Hpost as [-> Htr]. split; [apply Herr; auto|].
    rewrite (invoked_by_app _ _ _ _ [] Hrun); [constructor|].
    by rewrite app_nil_r.
Qed.

(** X7. A voice request answered with status 400 (no file, empty name,
    extension refused, nothing recognized) never reaches the language
    model or the synthesizer: at most the recognition stage was invoked. *)
Theorem voice_command_bad_request_stops_early secure_filename exn_str env files w resp :
  (voice_command secure_filename exn_str env files w).1 = Val resp →
  status resp = 400%Z →
  ∀ stage, stage ∈ invoked_by (voice_command secure_filename exn_str env files) w →
           ∃ path, stage = SpeechToText path.
Proof.
  intros Hresp Hbad stage Hin.
  destruct (voice_command_returns secure_filename exn_str env files w)
    as (resp' & w' & Hrun & Hpost).
  rewrite Hrun in Hresp. injection Hresp as ->.
  assert (w' = w → False) as Hsame.
  { intros ->. rewrite (invoked_by_same _ _ _ Hrun) in Hin.
    by apply elem_of_nil in Hin. }
  unfold voice_post in Hpost.
  destruct (files !! "audio") as [file_name|];
    [|destruct Hpost as [_ ?]; by destruct Hsame].
  destruct (String.eqb file_name "");
    [destruct Hpost as [_ ?]; by destruct Hsame|].
  destruct (allowed_file file_name) as [[]|];
    try (destruct Hpost as [_ ?]; by destruct Hsame).
  destruct (file_save env _).
  - destruct Hpost as (_ & stages & Htr & Hexit).
    rewrite (invoked_by_app _ _ _ _ _ Hrun Htr) in Hin.
    apply voice_exit_status in Hexit as (_ & Hnone & _).
    rewrite (Hnone Hbad) in Hin.
    apply list_elem_of_singleton in Hin as ->. by eexists.
  - destruct Hpost as [-> _]. done.
Qed.

Lemma voice_command_saved_run secure_filename exn_str env files w resp w' :
  voice_command secure_filename exn_str env files w = (Val resp, w') →
  status resp = 200%Z →
  ∃ file_name,
    files !! "audio" = Some file_name
    ∧ voice_saved_post env (path_join UPLOAD_FOLDER (secure_filename file_name))
        w resp w'.
Proof.
  intros Hrun Hok.
  pose proof (voice_command_spec secure_filename exn_str env files w) as Hpost.
  unfold spec in Hpost. rewrite Hrun in Hpost. unfold voice_post in Hpost.
  destruct (files !! "audio") as [file_name|] eqn:Hfile;
    [|by destruct Hpost as [-> _]].
  destruct (String.eqb file_name ""); [by destruct Hpost as [-> _]|].
  destruct (allowed_file file_name) as [[]|] eqn:Hallowed;
    try (by destruct Hpost as [-> _]).
  destruct (file_save env _) eqn:Hsave; [|by destruct Hpost as [-> _]].
  exists file_name. split; [done|].
  pose proof (voice_command_saved secure_filename exn_str env files w file_name
                Hfile Hallowed Hsave) as Hsaved.
  unfold spec in Hsaved. by rewrite Hrun in Hsaved.
Qed.

(** X8. In a successful voice command the data flows through the
    pipeline unchanged: the text reported as recognized is the prompt
    given to the generation stage, the reply reported is the text given
    to the synthesis stage, and the three stages were invoked once each,
    in order, on the saved upload. *)
Theorem voice_command_success_dataflow secure_filename exn_str env files w resp w' :
  voice_command secure_filename exn_str env files w = (Val resp, w') →
  status resp = 200%Z →
  ∃ file_name recognized reply,
    files !! "audio" = Some file_name
    ∧ body resp = [("status", "success");
                   ("recognized_text", recognized);
                   ("response_text", reply);
                   ("audio_response_url",
                    "/download-audio/" +:+ default_audio_name (now env))]
    ∧ invoked_by (voice_command secure_filename exn_str env files) w
      = [SpeechToText (path_join UPLOAD_FOLDER (secure_filename file_name));
         GetResponse recognized; TextToSpeech reply].
Proof.
  intros Hrun Hok.
  destruct (voice_command_saved_run _ _ _ _ _ _ _ Hrun Hok)
    as (file_name & Hfile & _ & Hsuccess).
  destruct (Hsuccess Hok) as (t & g & -> & Htr & _).
  exists file_name, t, g. split; [done|]. split.
  - cbn [body success_response]. by rewrite basename_audio_path.
  - by apply (invoked_by_app _ _ _ _ _ Hrun).
Qed.

(** X9. A voice command deletes nothing but its own temporary files:
    every file other than the upload path and its converted path that
    was present before the request is present after it. *)
Theorem voice_command_keeps_other_files secure_filename exn_str env files w file_name resp w' :
  files !! "audio" = Some file_name →
  voice_command secure_filename exn_str env files w = (Val resp, w') →
  let filepath := path_join UPLOAD_FOLDER (secure_filename file_name) in
  ∀ q, q ≠ filepath → q ≠ converted_path filepath →
       is_file (fs w) q → is_file (fs w') q.
Proof.
  intros Hfile Hrun filepath q Hq Hqc Hin.
  pose proof (voice_command_spec secure_filename exn_str env files w) as Hpost.
  unfold spec in Hpost. rewrite Hrun in Hpost. unfold voice_post in Hpost.
  rewrite Hfile in Hpost.
  destruct (String.eqb file_name ""); [by destruct Hpost as [_ ->]|].
  destruct (allowed_file file_name) as [[]|] eqn:Hallowed;
    try (by destruct Hpost as [_ ->]).
  fold filepath in Hpost.
  destruct (file_save env filepath) as [|e leaves] eqn:Hsave.
  - pose proof (voice_command_saved secure_filename exn_str env files w
                  file_name Hfile Hallowed Hsave) as Hsaved.
    unfold spec in Hsaved. rewrite Hrun in Hsaved.
    destruct Hsaved as [Hkeep _]. by apply Hkeep.
  - clear Hpost. revert Hrun.
    unfold voice_command, try_except, mbind, M_bind, mret, M_ret, lift_res.
    rewrite Hfile.
    destruct (String.eqb_spec file_name "") as [->|_]; [done|].
    rewrite Hallowed. fold filepath. rewrite Hsave.
    destruct leaves; cbn; intros [= _ <-]; [|done].
    by apply is_file_insert.
Qed.

(** X10. When saving the upload raises, the request is answered 500 with
    the exception's text and no stage is invoked; a partly written upload
    is left where it was written. *)
Theorem voice_command_save_failure secure_filename exn_str env files w file_name e leaves :
  files !! "audio" = Some file_name →
  allowed_file file_name = Val true →
  let filepath := path_join UPLOAD_FOLDER (secure_filename file_name) in
  file_save env filepath = WriteFailed e leaves →
  voice_command secure_filename exn_str env files w
  = (Val (error_response ("Internal server error: " +:+ exn_str e) 500),
     if leaves then with_file (now env) filepath w else w).
Proof.
  intros Hfile Hallowed filepath Hsave.
  unfold voice_command, try_except, mbind, M_bind, mret, M_ret, lift_res.
  rewrite Hfile.
  destruct (String.eqb_spec file_name "") as [->|_]; [done|].
  rewrite Hallowed. fold filepath. rewrite Hsave.
  by destruct leaves.
Qed.

Lemma upload_path_ne_audio_path env name :
  contains_char "/" name = false →
  audio_path env ≠ path_join UPLOAD_FOLDER name.
Proof.
  intros Hname. unfold path_join at 1.
  rewrite startswith_slash by done. rewrite audio_path_eq. done.
Qed.

(** X11. The URL a successful voice command returns can be downloaded,
    provided the sanitized upload name has no slash (as
    [secure_filename] guarantees): [download_audio] of the returned name,
    in the world the request leaves, sends an existing file. *)
Theorem voice_command_audio_downloadable secure_filename exn_str env files w resp w' :
  (∀ name, contains_char "/" (secure_filename name) = false) →
  voice_command secure_filename exn_str env files w = (Val resp, w') →
  status resp = 200%Z →
  ∃ name path,
    ("audio_response_url", "/download-audio/" +:+ name) ∈ body resp
    ∧ download_audio name w' = (Val (SendFile path), w')
    ∧ is_file (fs w') path.
Proof.
  intros Hsecure Hrun Hok.
  destruct (voice_command_saved_run _ _ _ _ _ _ _ Hrun Hok)
    as (file_name & Hfile & _ & Hsuccess).
  destruct (Hsuccess Hok) as (t & g & -> & _ & Haudio).
  destruct Haudio as [ctime Hctime].
  { apply upload_path_ne_audio_path, Hsecure. }
  exists (default_audio_name (now env)), (audio_path env).
  split; [|split].
  - cbn [body success_response]. rewrite basename_audio_path.
    do 3 apply list_elem_of_further. apply list_elem_of_here.
  - rewrite download_audio_run.
    change (path_join AUDIO_DIR (default_audio_name (now env)))
      with (audio_path env).
    by rewrite Hctime.
  - by exists ctime.
Qed.

(** X12. A text command hands the trimmed text to the generation stage,
    and when it succeeds it reports that trimmed text as [input_text],
    the reply it got as [response_text], and it synthesized exactly that
    reply. *)
Theorem text_command_dataflow exn_str env fields text w :
  assoc "text" fields = Some (JStr text) →
  strip text ≠ "" →
  ∃ resp w' later,
    text_command exn_str env (Val (JObj fields)) w = (Val resp, w')
    ∧ invoked_by (text_command exn_str env (Val (JObj fields))) w
      = GetResponse (strip text) :: later
    ∧ (status resp = 200%Z →
       ∃ reply,
         later = [TextToSpeech reply]
         ∧ body resp = [("status", "success");
                        ("input_text", strip text);
                        ("response_text", reply);
                        ("audio_response_url",
                         "/download-audio/" +:+ default_audio_name (now env))]).
Proof.
  intros Hfield Hne.
  pose proof (text_command_run exn_str env fields text w Hfield Hne) as Hrun.
  cbn zeta in Hrun.
  destruct (nonempty (generated env (strip text))) as [g|] eqn:Hgen.
  - rewrite (generated_not_blank _ _ _ Hgen) in Hrun.
    destruct (gtts_save env g (audio_path env)) as [|e []].
    + eexists _, _, [TextToSpeech g]. split; [exact Hrun|]. split.
      * apply (invoked_by_app _ _ _ _ _ Hrun).
        cbn [with_file add_stage trace]. by rewrite <- app_assoc.
      * intros _. exists g. split; [done|].
        cbn [body text_success]. by rewrite basename_audio_path.
    + eexists _, _, [TextToSpeech g]. split; [exact Hrun|]. split; [|done].
      apply (invoked_by_app _ _ _ _ _ Hrun).
      cbn [with_file add_stage trace]. by rewrite <- app_assoc.
    + eexists _, _, [TextToSpeech g]. split; [exact Hrun|]. split; [|done].
      apply (invoked_by_app _ _ _ _ _ Hrun).
      cbn [add_stage trace]. by rewrite <- app_assoc.
  - eexists _, _, []. split; [exact Hrun|]. split; [|done].
    by apply (invoked_by_app _ _ _ _ _ Hrun).
Qed.

(** X13. A reply that is missing, empty or only whitespace counts as a
    generation failure: when the model call raises or returns such a
    text, the text command answers 500 "Could not get response from
    Gemini", invokes no synthesis and leaves the file system as it
    was. *)
Theorem text_command_blank_reply exn_str env fields text w :
  assoc "text" fields = Some (JStr text) →
  strip text ≠ "" →
  ((∃ e, generate_content env (plain_prompt (strip text)) = Raise e)
   ∨ ∃ raw, generate_content env (plain_prompt (strip text)) = Val raw
            ∧ strip raw = "") →
  text_command exn_str env (Val (JObj fields)) w
  = (Val (error_response "Could not get response from Gemini" 500),
     add_stage w (GetResponse (strip text))).
Proof.
  intros Hfield Hne Hreply.
  rewrite (text_command_run exn_str env fields text w Hfield Hne). cbn zeta.
  assert (nonempty (generated env (strip text)) = None) as ->; [|done].
  unfold generated. destruct Hreply as [[e ->]|(raw & -> & Hraw)]; [done|].
  destruct (String.eqb raw ""); [done|]. cbn [nonempty]. by rewrite Hraw.
Qed.

(** ** Synthesis *)

(** X14. [text_to_speech] never raises; a path it returns names a file
    that exists afterwards, and no other path of the file system was
    changed; the text was not blank. *)
Theorem text_to_speech_returns_file env self text filename w :
  ∃ r w',
    text_to_speech env self text filename w = (Val r, w')
    ∧ ∀ path, r = Some path →
        fs w' = <[path := NFile (now env)]> (fs w)
        ∧ strip text ≠ "".
Proof.
  unfold text_to_speech, _gtts_convert, _pyttsx3_convert, try_except, mbind,
    M_bind, mret, M_ret, invoke.
  destruct (String.eqb text "" || String.eqb (strip text) "") eqn:Hblank;
    [by eexists _, _|].
  assert (strip text ≠ "") as Hne.
  { intros Heq. rewrite Heq in Hblank. cbn [String.eqb] in Hblank.
    by rewrite orb_true_r in Hblank. }
  destruct (use_gtts self).
  - destruct (gtts_save env text _) as [|e []]; cbn;
      eexists _, _; (split; [done|]); intros path [= <-]; done.
  - destruct (engine self); cbn [negb]; [|by eexists _, _].
    destruct (pyttsx3_save env text _) as [|e []]; cbn;
      eexists _, _; (split; [done|]); intros path [= <-]; done.
Qed.

Lemma string_length_app (s t : string) :
  String.length (s +:+ t) = (String.length s + String.length t)%nat.
Proof.
  induction s as [|c s IH]; [done|].
  change (S (String.length (s +:+ t)) = S (String.length s + String.length t)).
  by rewrite IH.
Qed.

Lemma string_app_inv_tail (s t u : string) : s +:+ u = t +:+ u → s = t.
Proof.
  revert t. induction s as [|c s IH]; intros [|d t] Heq; [done|..].
  - apply (f_equal String.length) in Heq.
    rewrite !string_length_app in Heq. cbn [String.length] in Heq. lia.
  - apply (f_equal String.length) in Heq.
    rewrite !string_length_app in Heq. cbn [String.length] in Heq. lia.
  - change (String c (s +:+ u) = String d (t +:+ u)) in Heq.
    injection Heq as -> Heq. f_equal. by apply IH.
Qed.

Lemma audio_path_inj env1 env2 :
  audio_path env1 = audio_path env2
  ↔ int_of_time (now env1) = int_of_time (now env2).
Proof.
  rewrite !audio_path_eq. split; [|by intros ->].
  intros Heq. apply string_app_inv_head, string_app_inv_tail in Heq.
  by apply (inj pretty) in Heq.
Qed.

(** X15. The application's synthesizer names its files by the second:
    two syntheses return the same path exactly when their clocks show the
    same whole second, so requests within one second overwrite each
    other's audio and requests in different seconds never do. *)
Theorem text_to_speech_same_second env1 env2 text1 text2 w1 w2 p1 p2 w1' w2' :
  text_to_speech env1 tts_service text1 None w1 = (Val (Some p1), w1') →
  text_to_speech env2 tts_service text2 None w2 = (Val (Some p2), w2') →
  p1 = p2 ↔ int_of_time (now env1) = int_of_time (now env2).
Proof.
  rewrite !text_to_speech_run. cbn zeta. intros H1 H2.
  assert (p1 = audio_path env1) as ->.
  { destruct (blank text1); [done|].
    destruct (gtts_save env1 text1 _) as [|e []]; congruence. }
  assert (p2 = audio_path env2) as ->.
  { destruct (blank text2); [done|].
    destruct (gtts_save env2 text2 _) as [|e []]; congruence. }
  apply audio_path_inj.
Qed.

(** ** The sweep, continued *)

(** X16. [cleanup_old_files] is safe to call at any time: it never
    raises, whether or not the output directory exists, and all it can do
    to the file system is remove regular files that lie directly in that
    directory; every other path, directories included, is as before. *)
Theorem cleanup_old_files_safe env self max_age_hours w :
  output_dir self = AUDIO_DIR →
  ∃ w', cleanup_old_files env self max_age_hours w = (Val (), w')
        ∧ trace w' = trace w
        ∧ ∀ p, fs w' !! p = fs w !! p
               ∨ (fs w' !! p = None
                  ∧ is_file (fs w) p
                  ∧ is_Some (child_name AUDIO_DIR p)).
Proof.
  intros Hself.
  destruct (fs w !! AUDIO_DIR) as [[t|]|] eqn:Hdir.
  - exists w. split; [|by auto].
    unfold cleanup_old_files, try_except, mbind, M_bind, mret, M_ret, os_listdir.
    by rewrite Hself, Hdir.
  - destruct (cleanup_old_files_run env self max_age_hours w Hself Hdir)
      as (w' & Hrun & Htr & Hfs).
    exists w'. split; [done|]. split; [done|]. intros p.
    destruct (Hfs p) as [[(name & t & Hname & Hfile & _) Hgone]|[_ Hsame]];
      [right|by left].
    split; [done|]. split; [by exists t|by exists name].
  - exists w. split; [|by auto].
    unfold cleanup_old_files, try_except, mbind, M_bind, mret, M_ret, os_listdir.
    by rewrite Hself, Hdir.
Qed.

Lemma world_eq (w1 w2 : World) : fs w1 = fs w2 → trace w1 = trace w2 → w1 = w2.
Proof. destruct w1, w2. cbn. by intros -> ->. Qed.

(** X17. The sweep is idempotent: run again at the same time with the
    same threshold on the world it left, it deletes nothing more. *)
Theorem cleanup_old_files_idempotent env self max_age_hours w w1 :
  output_dir self = AUDIO_DIR →
  cleanup_old_files env self max_age_hours w = (Val (), w1) →
  cleanup_old_files env self max_age_hours w1 = (Val (), w1).
Proof.
  intros Hself Hrun.
  assert (fs w !! AUDIO_DIR ≠ Some NDir → w1 = w) as Hnodir.
  { intros Hdir. revert Hrun.
    unfold cleanup_old_files, try_except, mbind, M_bind, mret, M_ret, os_listdir.
    rewrite Hself. destruct (fs w !! AUDIO_DIR) as [[]|]; congruence. }
  destruct (fs w !! AUDIO_DIR) as [[t|]|] eqn:Hdir;
    [rewrite Hnodir in * by done; exact Hrun| |
     rewrite Hnodir in * by done; exact Hrun].
  clear Hnodir.
  destruct (cleanup_old_files_run env self max_age_hours w Hself Hdir)
    as (w1' & Hrun' & Htr & Hfs).
  rewrite Hrun in Hrun'. injection Hrun' as <-.
  assert (fs w1 !! AUDIO_DIR = Some NDir) as Hdir1.
  { destruct (Hfs AUDIO_DIR) as [[(name & t & _ & Hfile & _) _]|[_ ->]];
      [congruence|done]. }
  destruct (cleanup_old_files_run env self max_age_hours w1 Hself Hdir1)
    as (w2 & Hrun2 & Htr2 & Hfs2).
  rewrite Hrun2. f_equal. apply world_eq; [|done].
  apply map_eq. intros p.
  destruct (Hfs2 p) as [[(name & t & Hname & Hfile & Hold) _]|[_ Hsame]];
    [|done].
  exfalso. destruct (Hfs p) as [[_ Hgone]|[Hyoung Hkept]]; [congruence|].
  apply Hyoung. exists name, t. by rewrite <- Hkept.
Qed.

(** X18. Synthesized audio outlives the sweep for as long as promised: a
    file [text_to_speech] has just returned is still there after any
    sweep whose clock is at most [max_age_hours] hours past the
    synthesis. The threshold is at most [2^53] seconds, so that it is a
    double and the rounded difference of the two clocks cannot pass it. *)
Theorem synthesized_file_survives_sweep env env' self text w p w1 max_age_hours w2 :
  text_to_speech env tts_service text None w = (Val (Some p), w1) →
  output_dir self = AUDIO_DIR →
  (now env' - now env <= inject_Z (max_age_hours * 3600))%Q →
  (Z.abs (max_age_hours * 3600) <= 2 ^ 53)%Z →
  cleanup_old_files env' self max_age_hours w1 = (Val (), w2) →
  fs w2 !! p = Some (NFile (now env)).
Proof.
  rewrite text_to_speech_run. cbn zeta. intros Hsynth Hself Hage Hk Hsweep.
  assert (fs w1 !! p = Some (NFile (now env))) as Hfile.
  { destruct (blank text); [done|].
    destruct (gtts_save env text _) as [|e []]; try done.
    injection Hsynth as <- <-. cbn [with_file fs]. apply lookup_insert_eq. }
  clear Hsynth.
  assert (fs w1 !! AUDIO_DIR ≠ Some NDir → w2 = w1) as Hnodir.
  { intros Hdir. revert Hsweep.
    unfold cleanup_old_files, try_except, mbind, M_bind, mret, M_ret, os_listdir.
    rewrite Hself. destruct (fs w1 !! AUDIO_DIR) as [[]|]; congruence. }
  destruct (fs w1 !! AUDIO_DIR) as [[t|]|] eqn:Hdir;
    [by rewrite Hnodir| |by rewrite Hnodir].
  destruct (cleanup_old_files_run env' self max_age_hours w1 Hself Hdir)
    as (w2' & Hrun & _ & Hfs).
  rewrite Hsweep in Hrun. injection Hrun as <-.
  destruct (Hfs p) as [[(name & t & _ & Ht & Hold) _]|[_ ->]]; [|done].
  rewrite Hfile in Ht. injection Ht as <-.
  pose proof (float_of_Q_le_int _ _ Hage Hk) as Hkept.
  unfold float_sub in Hold. congruence.
Qed.

(** ** The pyttsx3 voice *)

Lemma pick_voice_first before v after :
  (∀ u, u ∈ before → prefers u = false) → prefers v = true →
  pick_voice (before ++ v :: after) = Some (voice_id v).
Proof.
  intros Hbefore Hv. induction before as [|u before IH]; cbn [pick_voice app].
  - by rewrite Hv.
  - rewrite (Hbefore u) by left. apply IH. intros u' Hu'. apply Hbefore.
    by right.
Qed.

Lemma pick_voice_none vs :
  (∀ u, u ∈ vs → prefers u = false) → pick_voice vs = None.
Proof.
  intros Hnone. induction vs as [|u vs IH]; [done|]. cbn [pick_voice].
  rewrite (Hnone u) by left. apply IH. intros u' Hu'. apply Hnone. by right.
Qed.

Lemma pick_voice_member vs id :
  pick_voice vs = Some id → id ∈ voice_id <$> vs.
Proof.
  induction vs as [|u vs IH]; [done|]. cbn [pick_voice].
  destruct (prefers u).
  - intros [= <-]. rewrite fmap_cons. left.
  - intros H. rewrite fmap_cons. right. by apply IH.
Qed.

(** X19. On an initialised engine [_setup_pyttsx3] lowers the speech rate
    by 50, sets the volume to 0.9 and chooses the voice: the first voice
    whose lowercased name contains "female" or "zira" when there is one,
    the first voice of the list otherwise, and no voice at all (the
    engine's own stays) when the engine offers none. The chosen voice is
    always one the engine offers. *)
Theorem setup_pyttsx3_voice engine :
  ∃ engine',
    _setup_pyttsx3 (Some engine) = Some engine'
    ∧ rate engine' = (rate engine - 50)%Z
    ∧ volume engine' = 9 # 10
    ∧ voices engine' = voices engine
    ∧ (voices engine = [] → voice engine' = voice engine)
    ∧ (∀ before v after,
         voices engine = before ++ v :: after →
         (∀ u, u ∈ before → prefers u = false) → prefers v = true →
         voice engine' = Some (voice_id v))
    ∧ (∀ first rest,
         voices engine = first :: rest →
         (∀ u, u ∈ voices engine → prefers u = false) →
         voice engine' = Some (voice_id first))
    ∧ (voices engine ≠ [] →
       ∃ id, voice engine' = Some id ∧ id ∈ voice_id <$> voices engine).
Proof.
  unfold _setup_pyttsx3. cbn [rate volume voice voices].
  destruct (voices engine) as [|first rest] eqn:Hvoices;
    eexists; (split; [reflexivity|]); cbn [rate volume voice voices].
  - repeat split; try done.
    intros before v after Heq. by destruct before.
  - repeat split; try done.
    + intros before v after Heq Hbefore Hv.
      by rewrite Heq, (pick_voice_first _ _ _ Hbefore Hv).
    + intros first' rest' [= <- <-] Hnone. by rewrite (pick_voice_none _ Hnone).
    + intros _. destruct (pick_voice (first :: rest)) as [id|] eqn:Hpick.
      * exists id. split; [done|]. by apply pick_voice_member.
      * exists (voice_id first). split; [done|]. rewrite fmap_cons. left.
Qed.

(** ** Letter case in the extension check *)

Lemma lower_cons c s :
  lower (String c s)
  = String (if char_is_upper c then ascii_of_N (N_of_ascii c + 32) else c)
           (lower s).
Proof. done. Qed.

Lemma lower_char_dot c :
  Ascii.eqb (if char_is_upper c then ascii_of_N (N_of_ascii c + 32) else c) "."
  = Ascii.eqb c ".".
Proof. by destruct c as [[] [] [] [] [] [] [] []]. Qed.

Lemma lower_char_idemp c :
  let c' := if char_is_upper c then ascii_of_N (N_of_ascii c + 32) else c in
  (if char_is_upper c' then ascii_of_N (N_of_ascii c' + 32) else c') = c'.
Proof. by destruct c as [[] [] [] [] [] [] [] []]. Qed.

Lemma lower_idemp s : lower (lower s) = lower s.
Proof.
  induction s as [|c s IH]; [done|]. rewrite !lower_cons, IH.
  f_equal. apply lower_char_idemp.
Qed.

Lemma contains_dot_lower s : contains_char "." (lower s) = contains_char "." s.
Proof.
  induction s as [|c s IH]; [done|]. rewrite lower_cons. cbn [contains_char].
  by rewrite lower_char_dot, IH.
Qed.

Lemma rsplit1_lower s :
  rsplit1 "." (lower s)
  = (λ parts : string * string, (lower parts.1, lower parts.2))
      <$> rsplit1 "." s.
Proof.
  induction s as [|c s IH]; [done|]. rewrite lower_cons. cbn [rsplit1].
  rewrite IH. destruct (rsplit1 "." s) as [[pre suf]|]; [done|].
  cbn [fmap option_fmap option_map]. rewrite lower_char_dot.
  by destruct (Ascii.eqb c ".").
Qed.

(** X20. The extension check ignores letter case altogether: a file name
    and its lowercased form get the same answer from [allowed_file]. *)
Theorem allowed_file_ignores_case filename :
  allowed_file (lower filename) = allowed_file filename.
Proof.
  unfold allowed_file, rsplit.
  rewrite contains_dot_lower, rsplit1_lower.
  destruct (contains_char "." filename); [|done].
  destruct (rsplit1 "." filename) as [[pre suf]|]; [|done].
  cbn. by rewrite lower_idemp.
Qed.

(** ** Requests without usable input *)

(** X21. A voice request without an [audio] part, or whose part carries
    an empty file name, is answered 400 at once: nothing is written and no
    stage is invoked. *)
Theorem voice_command_without_file secure_filename exn_str env files w :
  files !! "audio" = None ∨ files !! "audio" = Some "" →
  ∃ msg,
    voice_command secure_filename exn_str env files w
    = (Val (error_response msg 400), w)
    ∧ (files !! "audio" = None → msg = "No audio file provided")
    ∧ (files !! "audio" = Some "" → msg = "No file selected")
    ∧ invoked_by (voice_command secure_filename exn_str env files) w = [].
Proof.
  intros Hfile.
  assert (∃ msg,
    voice_command secure_filename exn_str env files w
    = (Val (error_response msg 400), w)
    ∧ (files !! "audio" = None → msg = "No audio file provided")
    ∧ (files !! "audio" = Some "" → msg = "No file selected"))
    as (msg & Hrun & Hmsg).
  { unfold voice_command, try_except, mbind, M_bind, mret, M_ret.
    destruct Hfile as [-> | ->]; eexists; (split; [reflexivity|]); done. }
  exists msg. split; [done|]. split; [tauto|]. split; [tauto|].
  by eapply invoked_by_same.
Qed.

(** X22. What a text command answers to a body from which no text can
    be read, for every JSON value but an object whose [text] is a string.
    A body that is falsy ([null], [false], [0], the empty string, array or
    object) or a string, array or object that does not contain ["text"] is
    answered 400 "No text provided". A body on which [in] raises ([true],
    a number other than [0]) and a string or array that contains ["text"],
    which cannot be indexed by a string, are answered 500 with the text of
    the [TypeError]. An object whose [text] is not a string is answered
    500 with the text of the [AttributeError]. None of them changes the
    world. *)
Theorem text_command_malformed_body exn_str env data w :
  let answers r := text_command exn_str env (Val data) w = (Val r, w) in
  let no_text := error_response "No text provided" 400 in
  let failed e :=
    error_response ("Internal server error: " +:+ exn_str e) 500 in
  match data with
  | JNull => answers no_text
  | JBool b => answers (if b then failed TypeError else no_text)
  | JNum n => answers (if (n =? 0)%Z then no_text else failed TypeError)
  | JStr s =>
      answers (match String.index 0 "text" s with
               | Some _ => failed TypeError
               | None => no_text
               end)
  | JArr items =>
      answers (if existsb (json_is_str "text") items then failed TypeError
               else no_text)
  | JObj fields =>
      match assoc "text" fields with
      | None => answers no_text
      | Some (JStr _) => True
      | Some _ => answers (failed AttributeError)
      end
  end.
Proof.
  cbn zeta.
  unfold text_command, try_except, mbind, M_bind, lift_res, mret, M_ret.
  destruct data as [|b|n|s|items|fields];
    cbn [json_truthy json_contains json_getitem].
  - done.
  - by destruct b.
  - by destruct (n =? 0)%Z.
  - destruct s as [|c s]; [done|]. cbn [String.eqb negb].
    destruct (String.index 0 "text" (String c s)) as [i|] eqn:Hi.
    + by rewrite bool_decide_eq_true_2 by eauto.
    + rewrite bool_decide_eq_false_2; [done|]. by intros [? [=]].
  - destruct items as [|item items]; [done|].
    by destruct (existsb _ _).
  - destruct fields as [|kv fields]; [done|].
    destruct (assoc "text" (kv :: fields)) as [value|] eqn:Hvalue.
    + rewrite bool_decide_eq_true_2 by eauto. cbn [negb].
      by destruct value.
    + rewrite bool_decide_eq_false_2; [done|]. by intros [? [=]].
Qed.

(** * Witnesses of the further properties *)

Lemma text_command_audio_downloadable_witness :
  let env := sample_env (Val "unused") (Val "Hello there") (1000 # 1) in
  let run := text_command (λ _, "") env (Val (JObj [("text", JStr " hi ")]))
               empty_world in
  ∃ name path,
    ("audio_response_url", "/download-audio/" +:+ name)
      ∈ body (text_success "hi" "Hello there" (audio_path env))
    ∧ download_audio name run.2 = (Val (SendFile path), run.2)
    ∧ is_file (fs run.2) path.
Proof.
  intros env run.
  apply (text_command_audio_downloadable (λ _, "") env
           (Val (JObj [("text", JStr " hi ")])) empty_world
           (text_success "hi" "Hello there" (audio_path env)) run.2).
  - vm_compute. reflexivity.
  - reflexivity.
Defined.

Lemma speech_to_text_success_cleans_witness :
  let env := sample_env (Val "what time is it") (Val "unused") (1000 # 1) in
  ∃ w', speech_to_text env "uploads/a.mp3" empty_world
        = (Val (Some "what time is it"), w')
        ∧ fs w' = delete "uploads/a_converted.wav" (fs empty_world)
        ∧ fs w' !! "uploads/a_converted.wav" = None.
Proof.
  intros env.
  apply (speech_to_text_success_cleans env "uploads/a.mp3" empty_world
           "what time is it").
  - vm_compute. discriminate.
  - reflexivity.
  - reflexivity.
  - reflexivity.
  - reflexivity.
Defined.

Lemma speech_to_text_wav_pure_witness :
  let env := sample_env (Val "what time is it") (Val "unused") (1000 # 1) in
  ∃ r, speech_to_text env "uploads/a.wav" empty_world
       = (Val r, add_stage empty_world (SpeechToText "uploads/a.wav")).
Proof.
  intros env.
  apply (speech_to_text_wav_pure env "uploads/a.wav" empty_world). reflexivity.
Defined.

Lemma voice_command_bad_request_stops_early_witness :
  let env := sample_env (Raise UnknownValueError) (Val "unused") (1000 # 1) in
  let files : gmap string string := {[ "audio" := "hello.wav" ]} in
  SpeechToText "uploads/hello.wav"
    ∈ invoked_by (voice_command (λ s, s) (λ _, "") env files) empty_world
  ∧ ∃ path, SpeechToText "uploads/hello.wav" = SpeechToText path.
Proof.
  intros env files.
  assert (SpeechToText "uploads/hello.wav"
            ∈ invoked_by (voice_command (λ s, s) (λ _, "") env files) empty_world)
    as Hin.
  { vm_compute. apply list_elem_of_here. }
  split; [exact Hin|].
  apply (voice_command_bad_request_stops_early (λ s, s) (λ _, "") env files
           empty_world
           (error_response "Could not recognize speech from audio" 400)).
  - vm_compute. reflexivity.
  - reflexivity.
  - exact Hin.
Defined.

Lemma voice_command_success_dataflow_witness :
  let env := sample_env (Val "what time is it") (Val "It is noon.") (1000 # 1) in
  let files : gmap string string := {[ "audio" := "hello.wav" ]} in
  let run := voice_command (λ s, s) (λ _, "") env files empty_world in
  ∃ file_name recognized reply,
    files !! "audio" = Some file_name
    ∧ body (success_response "what time is it" "It is noon." (audio_path env))
      = [("status", "success");
         ("recognized_text", recognized);
         ("response_text", reply);
         ("audio_response_url",
          "/download-audio/" +:+ default_audio_name (now env))]
    ∧ invoked_by (voice_command (λ s, s) (λ _, "") env files) empty_world
      = [SpeechToText (path_join UPLOAD_FOLDER file_name);
         GetResponse recognized; TextToSpeech reply].
Proof.
  intros env files run.
  apply (voice_command_success_dataflow (λ s, s) (λ _, "") env files empty_world
           (success_response "what time is it" "It is noon." (audio_path env))
           run.2).
  - vm_compute. reflexivity.
  - reflexivity.
Defined.

Lemma voice_command_keeps_other_files_witness :
  let env := sample_env (Val "what time is it") (Val "It is noon.") (100000 # 1) in
  let files : gmap string string := {[ "audio" := "hello.mp3" ]} in
  let run := voice_command (λ s, s) (λ _, "") env files aged_world in
  is_file (fs run.2) "static/audio/h1.mp3".
Proof.
  intros env files run.
  apply (voice_command_keeps_other_files (λ s, s) (λ _, "") env files aged_world
           "hello.mp3"
           (success_response "what time is it" "It is noon." (audio_path env))
           run.2).
  - reflexivity.
  - vm_compute. reflexivity.
  - vm_compute. discriminate.
  - vm_compute. discriminate.
  - exists (96400 # 1). reflexivity.
Defined.

Lemma voice_command_save_failure_witness :
  let env :=
    {| now := 1000 # 1;
       file_save := λ _, WriteFailed (OSError "uploads/hello.wav") true;
       audio_decode := λ _ _, None;
       audio_export := λ _, Written;
       audio_record := λ _, None;
       recognize_google := λ _, Val "unused";
       generate_content := λ _, Val "unused";
       gtts_save := λ _ _, Written;
       pyttsx3_save := λ _ _, Written;
       model_init := None;
       set_iteration := elements |} in
  let files : gmap string string := {[ "audio" := "hello.wav" ]} in
  voice_command (λ s, s) (λ _, "disk full") env files empty_world
  = (Val (error_response "Internal server error: disk full" 500),
     with_file (1000 # 1) "uploads/hello.wav" empty_world).
Proof.
  intros env files.
  apply (voice_command_save_failure (λ s, s) (λ _, "disk full") env files
           empty_world "hello.wav" (OSError "uploads/hello.wav") true);
    reflexivity.
Defined.

Lemma voice_command_audio_downloadable_witness :
  let env := sample_env (Val "what time is it") (Val "It is noon.") (1000 # 1) in
  let files : gmap string string := {[ "audio" := "hello.wav" ]} in
  let run := voice_command (λ _, "upload.wav") (λ _, "") env files empty_world in
  ∃ name path,
    ("audio_response_url", "/download-audio/" +:+ name)
      ∈ body (success_response "what time is it" "It is noon." (audio_path env))
    ∧ download_audio name run.2 = (Val (SendFile path), run.2)
    ∧ is_file (fs run.2) path.
Proof.
  intros env files run.
  apply (voice_command_audio_downloadable (λ _, "upload.wav") (λ _, "") env
           files empty_world
           (success_response "what time is it" "It is noon." (audio_path env))
           run.2).
  - intros name. reflexivity.
  - vm_compute. reflexivity.
  - reflexivity.
Defined.

Lemma text_command_dataflow_witness :
  let env := sample_env (Val "unused") (Val "Hello there") (1000 # 1) in
  ∃ resp w' later,
    text_command (λ _, "") env (Val (JObj [("text", JStr " hi ")])) empty_world
    = (Val resp, w')
    ∧ invoked_by (text_command (λ _, "") env
                    (Val (JObj [("text", JStr " hi ")]))) empty_world
      = GetResponse "hi" :: later
    ∧ (status resp = 200%Z →
       ∃ reply,
         later = [TextToSpeech reply]
         ∧ body resp = [("status", "success");
                        ("input_text", "hi");
                        ("response_text", reply);
                        ("audio_response_url",
                         "/download-audio/" +:+ default_audio_name (now env))]).
Proof.
  intros env.
  apply (text_command_dataflow (λ _, "") env [("text", JStr " hi ")] " hi "
           empty_world).
  - reflexivity.
  - vm_compute. discriminate.
Defined.

Lemma text_command_blank_reply_witness :
  let env := sample_env (Val "unused") (Val "   ") (1000 # 1) in
  text_command (λ _, "") env (Val (JObj [("text", JStr "hi")])) empty_world
  = (Val (error_response "Could not get response from Gemini" 500),
     add_stage empty_world (GetResponse "hi")).
Proof.
  intros env.
  apply (text_command_blank_reply (λ _, "") env [("text", JStr "hi")] "hi"
           empty_world).
  - reflexivity.
  - vm_compute. discriminate.
  - right. exists "   ". split; reflexivity.
Defined.

Lemma text_to_speech_same_second_witness :
  let env1 := sample_env (Val "unused") (Val "unused") (1000 # 1) in
  let env2 := sample_env (Val "unused") (Val "unused") (2001 # 2) in
  audio_path env1 = audio_path env2.
Proof.
  intros env1 env2.
  apply (text_to_speech_same_second env1 env2 "one" "two" empty_world
           empty_world (audio_path env1) (audio_path env2)
           (text_to_speech env1 tts_service "one" None empty_world).2
           (text_to_speech env2 tts_service "two" None empty_world).2).
  - vm_compute. reflexivity.
  - vm_compute. reflexivity.
  - reflexivity.
Defined.

Lemma cleanup_old_files_safe_witness :
  let env := sample_env (Val "unused") (Val "unused") (100000 # 1) in
  ∃ w', cleanup_old_files env tts_service 24
          {| fs := ∅; trace := [] |} = (Val (), w')
        ∧ trace w' = []
        ∧ ∀ p, fs w' !! p = (∅ : gmap string node) !! p
               ∨ (fs w' !! p = None
                  ∧ is_file (∅ : gmap string node) p
                  ∧ is_Some (child_name AUDIO_DIR p)).
Proof.
  intros env.
  apply (cleanup_old_files_safe env tts_service 24 {| fs := ∅; trace := [] |}).
  reflexivity.
Defined.

Lemma cleanup_old_files_idempotent_witness :
  let env := sample_env (Val "unused") (Val "unused") (100000 # 1) in
  let swept := (cleanup_old_files env tts_service 24 aged_world).2 in
  cleanup_old_files env tts_service 24 swept = (Val (), swept).
Proof.
  intros env swept.
  apply (cleanup_old_files_idempotent env tts_service 24 aged_world swept).
  - reflexivity.
  - vm_compute. reflexivity.
Defined.

Lemma synthesized_file_survives_sweep_witness :
  let env := sample_env (Val "unused") (Val "unused") (100000 # 1) in
  let later := sample_env (Val "unused") (Val "unused") (186400 # 1) in
  let w1 := (text_to_speech env tts_service "Hello" None aged_world).2 in
  let w2 := (cleanup_old_files later tts_service 24 w1).2 in
  fs w2 !! audio_path env = Some (NFile (100000 # 1)).
Proof.
  intros env later w1 w2.
  apply (synthesized_file_survives_sweep env later tts_service "Hello"
           aged_world (audio_path env) w1 24 w2).
  - vm_compute. reflexivity.
  - reflexivity.
  - vm_compute. discriminate.
  - vm_compute. discriminate.
  - vm_compute. reflexivity.
Defined.

Lemma setup_pyttsx3_voice_witness :
  let engine :=
    {| rate := 200; volume := 1; voice := None;
       voices := [ {| voice_id := "v.david"; voice_name := "Microsoft David" |};
                   {| voice_id := "v.zira"; voice_name := "Microsoft Zira" |};
                   {| voice_id := "v.anna"; voice_name := "Anna (Female)" |} ] |} in
  ∃ engine',
    _setup_pyttsx3 (Some engine) = Some engine'
    ∧ rate engine' = 150%Z
    ∧ voice engine' = Some "v.zira".
Proof.
  intros engine.
  destruct (setup_pyttsx3_voice engine)
    as (engine' & Hrun & Hrate & _ & _ & _ & Hfirst & _).
  exists engine'. split; [exact Hrun|]. split; [exact Hrate|].
  apply (Hfirst [ {| voice_id := "v.david"; voice_name := "Microsoft David" |} ]
           {| voice_id := "v.zira"; voice_name := "Microsoft Zira" |}
           [ {| voice_id := "v.anna"; voice_name := "Anna (Female)" |} ]).
  - reflexivity.
  - intros u Hu. apply list_elem_of_singleton in Hu. rewrite Hu.
    vm_compute. reflexivity.
  - vm_compute. reflexivity.
Defined.

Lemma voice_command_without_file_witness :
  let env := sample_env (Val "unused") (Val "unused") (1000 # 1) in
  ∃ msg,
    voice_command (λ s, s) (λ _, "") env ∅ empty_world
    = (Val (error_response msg 400), empty_world)
    ∧ ((∅ : gmap string string) !! "audio" = None → msg = "No audio file provided")
    ∧ ((∅ : gmap string string) !! "audio" = Some "" → msg = "No file selected")
    ∧ invoked_by (voice_command (λ s, s) (λ _, "") env ∅) empty_world = [].
Proof.
  intros env.
  apply (voice_command_without_file (λ s, s) (λ _, "") env ∅ empty_world).
  left. reflexivity.
Defined.

Lemma text_command_malformed_body_witness :
  let env := sample_env (Val "unused") (Val "unused") (1000 # 1) in
  let run data := text_command sample_exn_str env (Val data) empty_world in
  run (JStr "hello") = (Val (error_response "No text provided" 400), empty_world)
  ∧ run (JArr [JStr "a"])
    = (Val (error_response "No text provided" 400), empty_world)
  ∧ run (JNum 5)
    = (Val (error_response "Internal server error: TypeError" 500), empty_world)
  ∧ run (JObj [("text", JNum 5)])
    = (Val (error_response "Internal server error: AttributeError" 500),
       empty_world).
Proof.
  intros env run. split; [|split; [|split]].
  - exact (text_command_malformed_body sample_exn_str env (JStr "hello") empty_world).
  - exact (text_command_malformed_body sample_exn_str env (JArr [JStr "a"])
             empty_world).
  - exact (text_command_malformed_body sample_exn_str env (JNum 5) empty_world).
  - exact (text_command_malformed_body sample_exn_str env (JObj [("text", JNum 5)])
             empty_world).
Defined.

Lemma text_to_speech_returns_file_witness :
  let env := sample_env (Val "unused") (Val "unused") (1000 # 1) in
  ∃ r w',
    text_to_speech env tts_service "Hello" None empty_world = (Val r, w')
    ∧ ∀ path, r = Some path →
        fs w' = <[path := NFile (now env)]> (fs empty_world)
        ∧ strip "Hello" ≠ "".
Proof.
  intros env.
  apply (text_to_speech_returns_file env tts_service "Hello" None empty_world).
Defined.
